(** * CopyQ script plugins: [src/item/itemloaderscript.cpp]

    A shallow embedding of the script-based item loader of CopyQ
    ([ItemLoaderScript], its saver decorator [ItemSaverScript] and the
    factory [createItemLoaderScript]) together with the properties its
    specification states about it.

    The C++ code drives a QtScript engine.  The engine, the log sink and the
    host's savers are state, so every operation that touches them is a
    function in a state monad over [World].  The methods [icon],
    [formatsToSave] and [scriptableObject] of the loader take no part in
    the properties below and are left out. *)

From Stdlib Require Import String Ascii List ZArith Bool Lia.
Import ListNotations.
Open Scope string_scope.

(* ------------------------------------------------------------------------- *)
(** ** QString, QByteArray, QFileInfo *)

(** A [QString] is either null ([QString()]) or a sequence of characters.
    [isNull] and [isEmpty] differ on the empty, non-null string, and the
    source tests both, so the null state is kept. *)
Inductive QString : Type :=
| QNull
| QStr (s : string).

Definition chars (q : QString) : string :=
  match q with
  | QNull => EmptyString
  | QStr s => s
  end.

Definition QString_isNull (q : QString) : bool :=
  match q with
  | QNull => true
  | QStr _ => false
  end.

Definition QString_isEmpty (q : QString) : bool :=
  match chars q with
  | EmptyString => true
  | String _ _ => false
  end.

(** [QString::prepend(label)]: the result is never null. *)
Definition QString_prepend (label text : QString) : QString :=
  QStr (chars label ++ chars text).

(** Replacement of every occurrence of the one-character pattern [c] by
    [after] (the source only ever passes the pattern ["\n"]). *)
Fixpoint replace_char (c : ascii) (after : string) (s : string) : string :=
  match s with
  | EmptyString => EmptyString
  | String x rest =>
      if Ascii.eqb x c
      then after ++ replace_char c after rest
      else String x (replace_char c after rest)
  end.

Definition newline : ascii := "010"%char.

(** [text.replace("\n", after)] *)
Definition QString_replace_newline (after text : QString) : QString :=
  match text with
  | QNull => QNull
  | QStr s => QStr (replace_char newline (chars after) s)
  end.

(** Whether [c] occurs in [s]. *)
Fixpoint contains_char (c : ascii) (s : string) : bool :=
  match s with
  | EmptyString => false
  | String x rest => Ascii.eqb x c || contains_char c rest
  end.

(** The label of [log]. *)
Definition label_of (m_id : QString) : string := "scripts::" ++ chars m_id ++ ": ".

(** The text [log] hands to the sink. *)
Definition logged_text (m_id text : QString) : QString :=
  QStr (replace_char newline (label_of m_id) (label_of m_id ++ chars text)).

(** The character class [[a-zA-Z0-9_]] of the regular expression in the
    constructor. *)
Definition in_class (c : ascii) : bool :=
  let n := nat_of_ascii c in
  ((97 <=? n) && (n <=? 122)          (* a-z *)
   || (65 <=? n) && (n <=? 90)        (* A-Z *)
   || (48 <=? n) && (n <=? 57)        (* 0-9 *)
   || (n =? 95))%nat.                 (* _ *)

Definition underscore : ascii := "_"%char.

Fixpoint replace_outside_class (s : string) : string :=
  match s with
  | EmptyString => EmptyString
  | String c rest =>
      String (if in_class c then c else underscore) (replace_outside_class rest)
  end.

(** [s.replace(QRegExp("[^a-zA-Z0-9_]"), "_")]: the regular expression
    matches single characters, each match is replaced by ["_"]. *)
Definition QString_replace_regexp (s : QString) : QString :=
  match s with
  | QNull => QNull
  | QStr t => QStr (replace_outside_class t)
  end.

(** The part of a path after its last ['/'], if it has one. *)
Fixpoint after_last_slash (s : string) : option string :=
  match s with
  | EmptyString => None
  | String c rest =>
      match after_last_slash rest with
      | Some r => Some r
      | None => if Ascii.eqb c "/"%char then Some rest else None
      end
  end.

Definition fileName (path : string) : string :=
  match after_last_slash path with
  | Some r => r
  | None => path
  end.

Fixpoint up_to_first_dot (s : string) : string :=
  match s with
  | EmptyString => EmptyString
  | String c rest =>
      if Ascii.eqb c "."%char then EmptyString
      else String c (up_to_first_dot rest)
  end.

(** [QFileInfo(path).baseName()]: the file name without the path, up to
    (not including) its first ['.']. *)
Definition QFileInfo_baseName (path : QString) : QString :=
  QStr (up_to_first_dot (fileName (chars path))).

(** A [QByteArray] is a sequence of 8-bit characters. *)
Definition QByteArray : Type := string.

Definition QByteArray_isEmpty (b : QByteArray) : bool :=
  match b with
  | EmptyString => true
  | String _ _ => false
  end.

(** [QString::fromUtf8] and the implicit [QByteArray] to [QString]
    conversion, on texts whose bytes are single characters: decoding of
    multi-byte sequences is left out. *)
Definition QString_fromUtf8 (b : QByteArray) : QString := QStr b.

(* ------------------------------------------------------------------------- *)
(** ** QtScript values *)

(** The values a script produces.  An object is the list of its members;
    a function is a handle to code the engine runs (see [run] below).
    Numbers are restricted to integers, no property here inspects them. *)
#[local] Set Warnings "-register-all".
Inductive JSValue : Type :=
| JSUndefined
| JSNull
| JSBool (b : bool)
| JSNumber (n : Z)
| JSString (s : string)
| JSObject (members : list (string * JSValue))
| JSFunction (code : nat).

(** A [QScriptValue] is a handle that is either invalid ([QScriptValue()])
    or holds a script value. *)
Inductive QScriptValue : Type :=
| Invalid
| Valid (v : JSValue).

Definition isValid (v : QScriptValue) : bool :=
  match v with
  | Invalid => false
  | Valid _ => true
  end.

Definition isFunction (v : QScriptValue) : bool :=
  match v with
  | Valid (JSFunction _) => true
  | _ => false
  end.

(** Functions are objects for [QScriptValue::isObject()]. *)
Definition isObject (v : QScriptValue) : bool :=
  match v with
  | Valid (JSObject _) | Valid (JSFunction _) => true
  | _ => false
  end.

Definition isUndefined (v : QScriptValue) : bool :=
  match v with
  | Valid JSUndefined => true
  | _ => false
  end.

Definition isNull (v : QScriptValue) : bool :=
  match v with
  | Valid JSNull => true
  | _ => false
  end.

Fixpoint lookup (name : string) (members : list (string * JSValue)) : QScriptValue :=
  match members with
  | [] => Invalid
  | (k, v) :: rest => if String.eqb k name then Valid v else lookup name rest
  end.

(** [obj.property(name)]: the member's value, or an invalid value when
    [obj] is not an object or has no such member. *)
Definition property (obj : QScriptValue) (name : string) : QScriptValue :=
  match obj with
  | Valid (JSObject members) => lookup name members
  | _ => Invalid
  end.

(** How a run of script code ends. *)
Inductive Completion : Type :=
| Return (v : JSValue)
| Throw (e : JSValue).

(** A [(message, messageCode)] pair carried by the [sendMessage] signal. *)
Definition Message : Type := (QByteArray * Z)%type.

(** The state of a [QScriptEngine]: the state the script itself keeps,
    the members of the global object and the uncaught exception, if one is
    pending. *)
Record QScriptEngine {Heap : Type} : Type := mkEngine {
  heap : Heap;
  globalObject : list (string * JSValue);
  uncaught : option JSValue
}.
Arguments QScriptEngine : clear implicits.
Arguments mkEngine {Heap}.

Definition hasUncaughtException {Heap} (e : QScriptEngine Heap) : bool :=
  match uncaught e with
  | Some _ => true
  | None => false
  end.

Definition clearExceptions {Heap} (e : QScriptEngine Heap) : QScriptEngine Heap :=
  mkEngine (heap e) (globalObject e) None.

(** Modelled from the spec: [common/log.h] is not among the sources; the
    severities the spec names are note, warning and error. *)
Inductive LogLevel : Type :=
| LogNote
| LogWarning
| LogError.

(** What reaches the host's log sink [::log(text, level)]. *)
Definition LogEvent : Type := (QString * LogLevel)%type.

(* ------------------------------------------------------------------------- *)
(** ** What the loader is given

    The script interpreter and the host application are not part of the
    loader.  [Environment] collects what the loader takes from them:
    - [run]: the engine running the code of a script function on a [this]
      object and arguments, from a script state; it ends with a
      [Completion], a new script state and the messages the script sent
      through the [Scriptable] while it ran;
    - [Scriptable_eval]: [Scriptable::eval(script, fileName)], which
      evaluates a source text in the engine;
    - [toString]: the text [QScriptValue::toString()] gives for a value
      when the conversion runs no code of the script (it is used for the
      value of an exception);
    - [toString_script]: [QScriptValue::toString()] as the engine runs it
      on a value, from a script state: converting an object calls its
      [toString] or [valueOf], which can be code of the script; it yields
      the text, the new script state, the exception the conversion raised,
      if any, and the messages the script sent;
    - [fromDataMap], [toDataMap]: the marshalling of [Scriptable];
    - the message codes of [common/commandstatus.h]. *)
Class Environment : Type := {
  Heap : Type;
  Host : Type;
  QVariant : Type;
  QAbstractItemModel : Type;
  QModelIndex : Type;
  QIODevice : Type;
  run : nat -> QScriptValue -> list QScriptValue -> Heap ->
        Completion * Heap * list Message;
  Scriptable_eval : QString -> QString -> QScriptEngine Heap ->
                    QScriptValue * QScriptEngine Heap * list Message;
  toString : QScriptValue -> QString;
  toString_script : QScriptValue -> Heap ->
                    QString * Heap * option JSValue * list Message;
  fromDataMap : list (string * QVariant) -> QScriptValue;
  toDataMap : QScriptValue -> list (string * QVariant);
  CommandError : Z;
  CommandBadSyntax : Z;
  CommandException : Z
}.

Section Loader.
Context {E : Environment}.

(** An item: MIME type to data. *)
Definition QVariantMap : Type := list (string * QVariant).

(** Everything the code reads and writes besides its own fields: the
    loader's script engine, the host application and the log sink. *)
Record World : Type := mkWorld {
  engine : QScriptEngine Heap;
  host : Host;
  hostlog : list LogEvent
}.

Definition M (A : Type) : Type := World -> A * World.

Definition ret {A} (a : A) : M A := fun w => (a, w).

Definition bind {A B} (m : M A) (f : A -> M B) : M B :=
  fun w => let (a, w1) := m w in f a w1.

Notation "x <- c1 ;; c2" := (bind c1 (fun x => c2))
  (at level 61, c1 at next level, right associativity).
Notation "c1 ;;; c2" := (bind c1 (fun _ => c2))
  (at level 61, right associativity).

Definition set_engine (e : QScriptEngine Heap) (w : World) : World :=
  mkWorld e (host w) (hostlog w).

(** [::log(text, level)] *)
Definition host_log (text : QString) (level : LogLevel) : M unit :=
  fun w => (tt, mkWorld (engine w) (host w) (hostlog w ++ [(text, level)])).

(** [const char scriptFunctionName[]] *)
Definition scriptFunctionName : string := "copyq_script".

(** *** ItemLoaderScript::log

    A method of the loader that reads only [m_id], which is its first
    argument here (the constructor logs before the object is complete). *)
Definition log (m_id : QString) (text : QString) (level : LogLevel) : M unit :=
  let label := QStr ("scripts::" ++ chars m_id ++ ": ") in
  let text := QString_prepend label text in
  let text := QString_replace_newline label text in
  host_log text level.

(** *** ItemLoaderScript::sendMessage (slot) *)
Definition sendMessage (m_id : QString) (message : QByteArray) (messageCode : Z)
  : M unit :=
  if negb (QByteArray_isEmpty message) then
    let text := QString_fromUtf8 message in
    if (messageCode =? CommandError)%Z
       || (messageCode =? CommandBadSyntax)%Z
       || (messageCode =? CommandException)%Z
    then log m_id text LogWarning
    else log m_id text LogNote
  else ret tt.

(** The [Scriptable] of a loader.  Its [sendMessage] signal is connected to
    the [sendMessage] slot of the loader in the loader's constructor; the
    slot reads only the loader's [m_id], which stands for the connection. *)
Record Scriptable : Type := mkScriptable {
  receiver : QString
}.

Fixpoint emit (s : Scriptable) (msgs : list Message) : M unit :=
  match msgs with
  | [] => ret tt
  | (message, messageCode) :: rest =>
      sendMessage (receiver s) message messageCode ;;;
      emit s rest
  end.

(** [fn.call(thisObject, args)].  A value that is not a function is not
    called and the result is invalid.  When the code throws, the result is
    the thrown value and it becomes the engine's uncaught exception; when
    it returns, an exception that was pending before the call stays
    pending. *)
Definition call (s : Scriptable) (fn thisObject : QScriptValue)
                (args : list QScriptValue) : M QScriptValue :=
  fun w =>
    match fn with
    | Valid (JSFunction code) =>
        let '(completion, h, msgs) := run code thisObject args (heap (engine w)) in
        let e := engine w in
        match completion with
        | Return v =>
            let w1 := set_engine (mkEngine h (globalObject e) (uncaught e)) w in
            (Valid v, snd (emit s msgs w1))
        | Throw x =>
            let w1 := set_engine (mkEngine h (globalObject e) (Some x)) w in
            (Valid x, snd (emit s msgs w1))
        end
    | _ => (Invalid, w)
    end.

(** [v.toString()] on a value of the script.  The conversion can run code
    of the script: an exception it raises becomes the engine's uncaught
    exception, otherwise one that was pending stays pending. *)
Definition QScriptValue_toString (s : Scriptable) (v : QScriptValue) : M QString :=
  fun w =>
    let '(text, h, raised, msgs) := toString_script v (heap (engine w)) in
    let e := engine w in
    let pending := match raised with
                   | Some x => Some x
                   | None => uncaught e
                   end in
    (text, snd (emit s msgs (set_engine (mkEngine h (globalObject e) pending) w))).

(** [m_scriptable.eval(script, fileName)] *)
Definition eval (s : Scriptable) (script fileName : QString) : M QScriptValue :=
  fun w =>
    let '(result, e, msgs) := Scriptable_eval script fileName (engine w) in
    (result, snd (emit s msgs (set_engine e w))).

(** *** ItemSaverInterface

    The savers of the host, which the script saver decorates: one function
    per virtual method.  [canRemoveItems] also yields what it stores through
    its [error] pointer; [transformItemData] yields the item it leaves in
    [*itemData]. *)
Record ItemSaverInterface : Type := mkSaver {
  host_saveItems : QString -> QAbstractItemModel -> QIODevice -> M bool;
  host_canRemoveItems : list QModelIndex -> M (bool * option QString);
  host_canMoveItems : list QModelIndex -> M bool;
  host_itemsRemovedByUser : list QModelIndex -> M unit;
  host_copyItem : QAbstractItemModel -> QVariantMap -> M QVariantMap;
  host_transformItemData : QAbstractItemModel -> QVariantMap -> M QVariantMap
}.

(** An [ItemSaverPtr] points either to a saver of the host or to an
    [ItemSaverScript] node, which holds the saver it wraps, the script
    object and the loader's [Scriptable]. *)
Inductive ItemSaver : Type :=
| HostSaver (impl : ItemSaverInterface)
| ItemSaverScript (m_saver : ItemSaver) (m_obj : QScriptValue)
                  (m_scriptable : Scriptable).

(** *** ItemSaverScript::transformItemData(fnName, itemData) (private) *)
Definition transformItemData_fn (m_obj : QScriptValue) (m_scriptable : Scriptable)
    (fnName : string) (itemData : QVariantMap) : M QVariantMap :=
  let fn := property m_obj fnName in
  if negb (isFunction fn) then ret itemData
  else
    let args := [fromDataMap itemData] in
    result <- call m_scriptable fn m_obj args ;;
    if isUndefined result || isNull result then ret itemData
    else ret (toDataMap result).

Fixpoint saveItems (s : ItemSaver) (tabName : QString)
    (model : QAbstractItemModel) (file : QIODevice) : M bool :=
  match s with
  | HostSaver impl => host_saveItems impl tabName model file
  | ItemSaverScript m_saver _ _ => saveItems m_saver tabName model file
  end.

Fixpoint canRemoveItems (s : ItemSaver) (indexList : list QModelIndex)
  : M (bool * option QString) :=
  match s with
  | HostSaver impl => host_canRemoveItems impl indexList
  | ItemSaverScript m_saver _ _ => canRemoveItems m_saver indexList
  end.

Fixpoint canMoveItems (s : ItemSaver) (indexList : list QModelIndex) : M bool :=
  match s with
  | HostSaver impl => host_canMoveItems impl indexList
  | ItemSaverScript m_saver _ _ => canMoveItems m_saver indexList
  end.

Fixpoint itemsRemovedByUser (s : ItemSaver) (indexList : list QModelIndex) : M unit :=
  match s with
  | HostSaver impl => host_itemsRemovedByUser impl indexList
  | ItemSaverScript m_saver _ _ => itemsRemovedByUser m_saver indexList
  end.

Fixpoint copyItem (s : ItemSaver) (model : QAbstractItemModel)
    (itemData : QVariantMap) : M QVariantMap :=
  match s with
  | HostSaver impl => host_copyItem impl model itemData
  | ItemSaverScript m_saver m_obj m_scriptable =>
      itemData2 <- copyItem m_saver model itemData ;;
      transformItemData_fn m_obj m_scriptable "copyItem" itemData2
  end.

Fixpoint transformItemData (s : ItemSaver) (model : QAbstractItemModel)
    (itemData : QVariantMap) : M QVariantMap :=
  match s with
  | HostSaver impl => host_transformItemData impl model itemData
  | ItemSaverScript m_saver m_obj m_scriptable =>
      itemData <- transformItemData m_saver model itemData ;;
      transformItemData_fn m_obj m_scriptable "transformItemData" itemData
  end.

(** *** ItemLoaderScript *)

(** The fields of the loader.  [m_engine] is the [engine] of the [World]. *)
Record ItemLoaderScript : Type := mkLoader {
  m_scriptable : Scriptable;
  m_obj : QScriptValue;
  m_baseName : QString;
  m_script : QString;
  m_id : QString
}.

(** The script file as the constructor finds it: [open] fails with an error
    text, or the file is read whole. *)
Inductive QFile : Type :=
| Unreadable (errorString : QString)
| Readable (content : QByteArray).

(** [scriptFile.readAll()]: nothing is read from a file that is not open. *)
Definition readAll (f : QFile) : QByteArray :=
  match f with
  | Unreadable _ => EmptyString
  | Readable content => content
  end.

Definition double_quote : string := String (ascii_of_nat 34) EmptyString.

(** *** ItemLoaderScript::processUncaughtException *)
Definition processUncaughtException (m_id : QString) : M bool :=
  fun w =>
    match uncaught (engine w) with
    | None => (false, w)
    | Some exception =>
        let (_, w1) := log m_id (toString (Valid exception)) LogWarning w in
        (true, set_engine (clearExceptions (engine w1)) w1)
    end.

(** *** ItemLoaderScript::ItemLoaderScript (constructor)

    Members are initialised in the order of their declaration:
    [m_baseName] before [m_id].  The initialiser of [m_id] calls
    [QString::replace] on [m_baseName], which replaces inside the string it
    is called on and returns a reference to it: both fields end up with the
    replaced text. *)
Definition ItemLoaderScript_new (scriptFilePath : QString) (scriptFile : QFile)
  : M ItemLoaderScript :=
  let m_baseName := QFileInfo_baseName scriptFilePath in
  let m_baseName := QString_replace_regexp m_baseName in
  let m_id := m_baseName in
  let m_scriptable := mkScriptable m_id in
  match scriptFile with
  | Unreadable errorString =>
      log m_id
          (QStr ("Failed to open " ++ double_quote ++ chars scriptFilePath
                 ++ double_quote ++ ": " ++ chars errorString))
          LogError
  | Readable _ => ret tt
  end ;;;
  let m_script := QString_fromUtf8 (readAll scriptFile) in
  if negb (QString_isEmpty m_script) then
    eval m_scriptable m_script scriptFilePath ;;;
    m_obj <- (fun w => (property (Valid (JSObject (globalObject (engine w))))
                                 scriptFunctionName, w)) ;;
    m_obj <- (if isFunction m_obj
              then call m_scriptable m_obj Invalid []
              else ret m_obj) ;;
    failed <- processUncaughtException m_id ;;
    ret (mkLoader m_scriptable (if failed then Invalid else m_obj)
                  m_baseName m_script m_id)
  else
    ret (mkLoader m_scriptable Invalid m_baseName m_script m_id).

Definition isLoaded (l : ItemLoaderScript) : bool := isObject (m_obj l).

Definition priority (l : ItemLoaderScript) : Z := 20.

Definition id (l : ItemLoaderScript) : QString := m_id l.

(** *** ItemLoaderScript::value *)
Definition value (l : ItemLoaderScript) (variableName : string) : M QScriptValue :=
  let value := property (m_obj l) variableName in
  value <- (if isFunction value
            then call (m_scriptable l) value (m_obj l) []
            else ret value) ;;
  failed <- processUncaughtException (m_id l) ;;
  if failed then ret Invalid else ret value.

(** *** ItemLoaderScript::stringValue *)
Definition stringValue (l : ItemLoaderScript) (variableName : string)
    (defaultValue : QString) : M QString :=
  value <- value l variableName ;;
  if isValid value then
    text <- QScriptValue_toString (m_scriptable l) value ;;
    if negb (QString_isNull text) then ret text else ret defaultValue
  else ret defaultValue.

Definition name (l : ItemLoaderScript) : M QString :=
  stringValue l "name" (m_baseName l).

Definition author (l : ItemLoaderScript) : M QString :=
  stringValue l "author" QNull.

Definition description (l : ItemLoaderScript) : M QString :=
  stringValue l "description" QNull.

(** *** ItemLoaderScript::transformSaver *)
Definition transformSaver (l : ItemLoaderScript) (saver : ItemSaver) : ItemSaver :=
  if isFunction (property (m_obj l) "copyItem")
     || isFunction (property (m_obj l) "transformItemData")
  then ItemSaverScript saver (m_obj l) (m_scriptable l)
  else saver.

(** *** createItemLoaderScript

    [None] is the null pointer. *)
Definition createItemLoaderScript (scriptFilePath : QString) (scriptFile : QFile)
  : M (option ItemLoaderScript) :=
  loader <- ItemLoaderScript_new scriptFilePath scriptFile ;;
  if isLoaded loader then ret (Some loader) else ret None.

(** The world in which a readable script has been evaluated. *)
Definition evaluated (scriptFilePath : QString) (content : QByteArray) (w : World)
  : QScriptValue * World :=
  eval (mkScriptable (QString_replace_regexp (QFileInfo_baseName scriptFilePath)))
       (QString_fromUtf8 content) scriptFilePath w.

(** The value of the global [copyq_script] in a world. *)
Definition factory (w : World) : QScriptValue :=
  property (Valid (JSObject (globalObject (engine w)))) scriptFunctionName.

End Loader.

Arguments World : clear implicits.
Arguments ItemSaver : clear implicits.
Arguments ItemSaverInterface : clear implicits.

(* ------------------------------------------------------------------------- *)
(** ** A concrete environment

    A small interpreter and host on which the definitions above run: the
    examples and the concrete instances of the theorems are evaluated on
    it. *)
Module Demo.

(** The object the factory of the script ["factory"] returns. *)
Definition handler : JSValue :=
  JSObject [ ("name", JSString "X");
             ("author", JSFunction 4);
             ("description", JSFunction 3);
             ("copyItem", JSFunction 1);
             ("transformItemData", JSFunction 2) ].

(** An object with metadata and no hook. *)
Definition plain : JSValue :=
  JSObject [ ("author", JSString "somebody") ].

(** What [throw new Error("boom")] throws. *)
Definition error : JSValue :=
  JSObject [ ("message", JSString "boom") ].

(** The script state is the number of calls made so far. *)
Definition interpret (code : nat) (thisObject : QScriptValue) (args : list QScriptValue)
    (calls : nat) : Completion * nat * list Message :=
  match code with
  | 0 => (Return handler, S calls, [])
  | 1 => (Return JSUndefined, S calls, [])
  | 2 => (Throw error, S calls, [])
  | 3 => (Return (JSString "computed"), S calls, [])
  | 4 => (Throw error, S calls, [])
  | 5 => (Return (JSObject [("text/plain", JSString "changed")]), S calls, [])
  | _ => (Return JSUndefined, S calls, [])
  end%nat.

(** The evaluation of four scripts, named by their text; any other text
    fails with a syntax error. *)
Definition evaluate (script fileName : QString) (e : QScriptEngine nat)
  : QScriptValue * QScriptEngine nat * list Message :=
  if String.eqb (chars script) "factory" then
    (Valid JSUndefined,
     mkEngine (heap e) [(scriptFunctionName, JSFunction 0)] None, [])
  else if String.eqb (chars script) "object" then
    (Valid handler, mkEngine (heap e) [] None, [])
  else if String.eqb (chars script) "plain" then
    (Valid JSUndefined, mkEngine (heap e) [(scriptFunctionName, plain)] None, [])
  else if String.eqb (chars script) "throwing factory" then
    (Valid JSUndefined,
     mkEngine (heap e) [(scriptFunctionName, JSFunction 4)] None, [])
  else
    (Invalid, mkEngine (heap e) [] (Some (JSString "syntax error")), []).

Definition text_of (v : QScriptValue) : QString :=
  match v with
  | Invalid => QNull
  | Valid (JSString s) => QStr s
  | Valid (JSObject members) =>
      match lookup "message" members with
      | Valid (JSString s) => QStr ("Error: " ++ s)
      | _ => QStr "[object Object]"
      end
  | Valid JSUndefined => QStr "undefined"
  | Valid JSNull => QStr "null"
  | Valid _ => QStr "[value]"
  end.

(** Items hold texts; an object is marshalled member by member. *)
Definition marshal (itemData : list (string * string)) : QScriptValue :=
  Valid (JSObject (map (fun kv => (fst kv, JSString (snd kv))) itemData)).

Definition unmarshal (v : QScriptValue) : list (string * string) :=
  match v with
  | Valid (JSObject members) =>
      flat_map (fun kv => match snd kv with
                          | JSString s => [(fst kv, s)]
                          | _ => []
                          end) members
  | _ => []
  end.

Definition env : Environment := {|
  Heap := nat;
  Host := unit;
  QVariant := string;
  QAbstractItemModel := unit;
  QModelIndex := nat;
  QIODevice := unit;
  run := interpret;
  Scriptable_eval := evaluate;
  toString := text_of;
  toString_script := fun v calls => (text_of v, calls, None, []);
  fromDataMap := marshal;
  toDataMap := unmarshal;
  CommandError := 1;
  CommandBadSyntax := 2;
  CommandException := 4
|}.

(** A fresh engine and an empty log. *)
Definition world0 : World env := mkWorld (E := env) (mkEngine 0%nat [] None) tt [].

(** A saver of the host that copies and transforms items unchanged. *)
Definition builtin : ItemSaver env :=
  HostSaver (E := env)
    (mkSaver (E := env)
       (fun _ _ _ w => (true, w))
       (fun _ w => (true, None, w))
       (fun _ w => (true, w))
       (fun _ w => (tt, w))
       (fun _ itemData w => (itemData, w))
       (fun _ itemData w => (itemData, w))).

Definition item : list (string * string) := [("text/plain", "hello")].

Definition load (path : string) (script : string) : ItemLoaderScript * World env :=
  ItemLoaderScript_new (E := env) (QStr path) (Readable script) world0.

End Demo.

(* ------------------------------------------------------------------------- *)
(** ** Notions used to state properties of the loader *)

Section Observations.
Context {E : Environment}.

(** The saver of the host at the bottom of a chain of script nodes. *)
Fixpoint innermost (s : ItemSaver E) : ItemSaverInterface E :=
  match s with
  | HostSaver impl => impl
  | ItemSaverScript m_saver _ _ => innermost m_saver
  end.

(** The severity [sendMessage] logs a message code with. *)
Definition level_of (messageCode : Z) : LogLevel :=
  if (messageCode =? CommandError)%Z
     || (messageCode =? CommandBadSyntax)%Z
     || (messageCode =? CommandException)%Z
  then LogWarning else LogNote.

(** The events a list of messages leaves in the log of the loader [m_id]. *)
Fixpoint events_of (m_id : QString) (msgs : list Message) : list LogEvent :=
  match msgs with
  | [] => []
  | (message, messageCode) :: rest =>
      if QByteArray_isEmpty message then events_of m_id rest
      else (logged_text m_id (QStr message), level_of messageCode)
           :: events_of m_id rest
  end.

End Observations.

(* ------------------------------------------------------------------------- *)
(** * The image plugin: [plugins/itemimage/itemimage.cpp] *)

(** [s.contains(sub)] *)
Fixpoint has_substring (sub s : string) : bool :=
  String.prefix sub s
  || match s with
     | EmptyString => false
     | String _ rest => has_substring sub rest
     end.

Definition QString_contains (sub : string) (s : QString) : bool :=
  has_substring sub (chars s).

(** What the image plugin takes from Qt: the conversions of [QVariant]
    ([QVariant()] is [invalidVariant]), pixmaps with their size, decoding
    and scaling, [setDevicePixelRatio] with the ratio of the parent widget
    (the identity before Qt 5, where the call is compiled out), the formats
    [QMovie] supports, the comparison of the two
    floating-point quotients in [ItemImageLoader::create]
    ([ratio_gt pw w ph h] is [1.0 * pw / w > 1.0 * ph / h]) and the constant
    [mimeHidden] of [common/mimetypes.h]. *)
Class Gui (E : Environment) : Type := {
  invalidVariant : QVariant;
  toByteArray : QVariant -> QByteArray;
  toBool : QVariant -> bool;
  toInt : QVariant -> Z;
  toQString : QVariant -> QString;
  QPixmap : Type;
  nullPixmap : QPixmap;
  width : QPixmap -> Z;
  height : QPixmap -> Z;
  loadFromData : QPixmap -> QByteArray -> QByteArray -> bool * QPixmap;
  scaledToWidth : QPixmap -> Z -> QPixmap;
  scaledToHeight : QPixmap -> Z -> QPixmap;
  setDevicePixelRatio : QPixmap -> QPixmap;
  ratio_gt : Z -> Z -> Z -> Z -> bool;
  supportedFormats : list QByteArray;
  mimeHidden : string
}.

Module ItemImage.
Section Image.
Context {E : Environment} {G : Gui E}.

(** A [QVariantMap] holds one value per key; [find] is the value of a
    key. *)
Fixpoint find (key : string) (m : QVariantMap) : option QVariant :=
  match m with
  | [] => None
  | (k, v) :: rest => if String.eqb k key then Some v else find key rest
  end.

(** [m.keys()] *)
Definition keys (m : QVariantMap) : list string := map fst m.

(** [m.contains(key)] *)
Definition contains (key : string) (m : QVariantMap) : bool :=
  match find key m with
  | Some _ => true
  | None => false
  end.

(** [m.value(key)] and [m[key]] on a constant map: a default-constructed
    value when the key is missing. *)
Definition value (key : string) (m : QVariantMap) : QVariant :=
  match find key m with
  | Some v => v
  | None => invalidVariant
  end.

(** [static const QStringList imageFormats]: checked in this order. *)
Definition imageFormats : list string :=
  [ "image/png"; "image/bmp"; "image/jpeg"; "image/gif"; "image/svg+xml" ].

(** The loop of [findImageFormat] over the candidates that are left. *)
Fixpoint first_contained (candidates formats : list string) : QString :=
  match candidates with
  | [] => QNull
  | format :: rest =>
      if existsb (String.eqb format) formats then QStr format
      else first_contained rest formats
  end.

Definition findImageFormat (formats : list string) : QString :=
  first_contained imageFormats formats.

(** [getImageData(dataMap, data, mime)]: the result, with what [*data] and
    [*mime] hold afterwards. *)
Definition getImageData (dataMap : QVariantMap) (data : QByteArray) (mime : QString)
  : bool * QByteArray * QString :=
  let mime := findImageFormat (keys dataMap) in
  if QString_isEmpty mime then (false, data, mime)
  else (true, toByteArray (value (chars mime) dataMap), mime).

(** The loop of [getAnimatedImageData] over the formats that are left. *)
Fixpoint animated_in (formats : list QByteArray) (dataMap : QVariantMap)
    (data format : QByteArray) : bool * QByteArray * QByteArray :=
  match formats with
  | [] => (false, data, format)
  | movieFormat :: rest =>
      let mime := "image/" ++ movieFormat in
      if contains mime dataMap
      then (true, toByteArray (value mime dataMap), movieFormat)
      else animated_in rest dataMap data format
  end.

(** [getAnimatedImageData(dataMap, data, format)] *)
Definition getAnimatedImageData (dataMap : QVariantMap) (data format : QByteArray)
  : bool * QByteArray * QByteArray :=
  animated_in supportedFormats dataMap data format.

(** [getPixmapFromData(dataMap, pix)]: the result of [loadFromData] is not
    looked at. *)
Definition getPixmapFromData (dataMap : QVariantMap) (pix : QPixmap)
  : bool * QPixmap :=
  let '(ok, data, mime) := getImageData dataMap EmptyString QNull in
  if negb ok then (false, pix)
  else (true, snd (loadFromData pix data (chars mime))).

(** The fields the constructor of [ItemImage] sets. *)
Record ItemImage : Type := mkItemImage {
  m_editor : QString;
  m_svgEditor : QString;
  m_pixmap : QPixmap;
  m_animationData : QByteArray;
  m_animationFormat : QByteArray
}.

(** What [new ItemEditor(data, mime, cmd, parent)] is given. *)
Record ItemEditor : Type := mkItemEditor {
  editor_data : QByteArray;
  editor_mime : QString;
  editor_cmd : QString
}.

(** [ItemImage::createExternalEditor], on the data map of the index. *)
Definition createExternalEditor (this : ItemImage) (dataMap : QVariantMap)
  : option ItemEditor :=
  let '(ok, data, mime) := getImageData dataMap EmptyString QNull in
  if negb ok then None
  else
    let cmd := if QString_contains "svg" mime then m_svgEditor this
               else m_editor this in
    if QString_isEmpty cmd then None else Some (mkItemEditor data mime cmd).

(** [m_settings.value(key, defaultValue).toInt()]; the default is an
    integer, which [toInt] gives back as it is. *)
Definition setting_int (m_settings : QVariantMap) (key : string) (defaultValue : Z) : Z :=
  match find key m_settings with
  | Some v => toInt v
  | None => defaultValue
  end.

(** [m_settings.value(key).toString()]: null when the key is missing. *)
Definition setting_string (m_settings : QVariantMap) (key : string) : QString :=
  match find key m_settings with
  | Some v => toQString v
  | None => QNull
  end.

(** [ItemImageLoader::create(data, parent, preview)]; [None] is the null
    pointer. *)
Definition create (m_settings : QVariantMap) (data : QVariantMap) (preview : bool)
  : option ItemImage :=
  if toBool (value mimeHidden data) then None
  else
    let (ok, pix) := getPixmapFromData data nullPixmap in
    if negb ok then None
    else
      let pix := setDevicePixelRatio pix in
      let w := if preview then 0%Z else setting_int m_settings "max_image_width" 320 in
      let h := if preview then 0%Z else setting_int m_settings "max_image_height" 240 in
      let pix :=
        if (0 <? w)%Z && (w <? width pix)%Z
           && ((h <=? 0)%Z || ratio_gt (width pix) w (height pix) h)
        then scaledToWidth pix w
        else if (0 <? h)%Z && (h <? height pix)%Z
        then scaledToHeight pix h
        else pix in
      let '(_, animationData, animationFormat) :=
        getAnimatedImageData data EmptyString EmptyString in
      Some (mkItemImage (setting_string m_settings "image_editor")
                        (setting_string m_settings "svg_editor")
                        pix animationData animationFormat).

(** [ItemImageLoader::formatsToSave] *)
Definition formatsToSave : list string :=
  [ "image/svg+xml"; "image/png"; "image/gif" ].

End Image.
End ItemImage.

(** A concrete [Gui]: values are texts, a pixmap is its size, decoding
    succeeds on the texts ["ok"] (a pixmap of 640 by 480) and ["small"]
    (32 by 32). *)
Module DemoGui.

Definition gui : Gui Demo.env := {|
  invalidVariant := EmptyString : @QVariant Demo.env;
  toByteArray := fun v : @QVariant Demo.env => v;
  toBool := fun v : @QVariant Demo.env => String.eqb v "true";
  toInt := fun v : @QVariant Demo.env => 100%Z;
  toQString := fun v : @QVariant Demo.env => QStr v;
  QPixmap := (Z * Z)%type;
  nullPixmap := (0, 0)%Z;
  width := fst;
  height := snd;
  loadFromData := fun pix data format =>
    if String.eqb data "ok" then (true, (640, 480)%Z)
    else if String.eqb data "small" then (true, (32, 32)%Z)
    else (false, (0, 0)%Z);
  scaledToWidth := fun pix w => (w, snd pix * w / fst pix)%Z;
  scaledToHeight := fun pix h => (fst pix * h / snd pix, h)%Z;
  setDevicePixelRatio := fun pix => pix;
  ratio_gt := fun pw w ph h => (ph * w <? pw * h)%Z;
  supportedFormats := [ "gif"; "mng" ];
  mimeHidden := "application/x-copyq-hidden"
|}.

Definition png_and_svg : list (string * string) :=
  [ ("image/svg+xml", "<svg/>"); ("text/plain", "picture"); ("image/png", "ok") ].

Definition text_only : list (string * string) := [ ("text/plain", "hello") ].

Definition animated : list (string * string) :=
  [ ("image/gif", "ok"); ("image/mng", "frames") ].

Definition settings : list (string * string) :=
  [ ("image_editor", "gimp %1"); ("svg_editor", "inkscape %1") ].

Definition widget : ItemImage.ItemImage (G := gui) :=
  ItemImage.mkItemImage (G := gui) (QStr "gimp %1") (QStr "inkscape %1")
                        (640, 480)%Z EmptyString EmptyString.

End DemoGui.

(** The environment [Demo.env] with one more script, whose factory sends
    a message and returns a number, and a hook that sends messages. *)
Module Demo2.

Definition interpret (code : nat) (thisObject : QScriptValue) (args : list QScriptValue)
    (calls : nat) : Completion * nat * list Message :=
  match code with
  | 7 => (Return (JSNumber 42), S calls, [("made a number", 0%Z)])
  | 8 => (Return JSNull, S calls, [("", 1%Z); ("careful", 2%Z)])
  | _ => Demo.interpret code thisObject args calls
  end%nat.

(** The conversion to text of an object whose first member is a function
    [toString] runs that function, which throws; any other value is
    converted without running code. *)
Definition convert (v : QScriptValue) (calls : nat)
  : QString * nat * option JSValue * list Message :=
  match v with
  | Valid (JSObject (("toString", JSFunction _) :: _)) =>
      (QStr EmptyString, S calls, Some Demo.error, [("converting", 0%Z)])
  | _ => (Demo.text_of v, calls, None, [])
  end.

Definition evaluate (script fileName : QString) (e : QScriptEngine nat)
  : QScriptValue * QScriptEngine nat * list Message :=
  if String.eqb (chars script) "number factory" then
    (Valid JSUndefined,
     mkEngine (heap e) [(scriptFunctionName, JSFunction 7)] None, [])
  else Demo.evaluate script fileName e.

Definition env : Environment := {|
  Heap := nat;
  Host := unit;
  QVariant := string;
  QAbstractItemModel := unit;
  QModelIndex := nat;
  QIODevice := unit;
  run := interpret;
  Scriptable_eval := evaluate;
  toString := Demo.text_of;
  toString_script := convert;
  fromDataMap := Demo.marshal;
  toDataMap := Demo.unmarshal;
  CommandError := 1;
  CommandBadSyntax := 2;
  CommandException := 4
|}.

Definition world0 : World env := mkWorld (E := env) (mkEngine 0%nat [] None) tt [].

(** A saver of the host that logs what it is asked and adds a format to
    the items it copies. *)
Definition builtin : ItemSaver env :=
  HostSaver (E := env)
    (mkSaver (E := env)
       (fun _ _ _ w => (true, w))
       (fun _ w => (false, Some (QStr "pinned"), w))
       (fun _ w => (false, w))
       (fun _ w => host_log (E := env) (QStr "removed") LogNote w)
       (fun _ itemData w => ((("text/html", "<b/>") :: itemData)%list, w))
       (fun _ itemData w => (itemData, w))).

(** A script object with the hook [transformItemData] alone. *)
Definition transformer : QScriptValue :=
  Valid (JSObject [("transformItemData", JSFunction 8)]).

End Demo2.

(* ------------------------------------------------------------------------- *)
(** ** Properties of the strings *)

Lemma contains_char_app (c : ascii) (s t : string) :
  contains_char c (s ++ t) = contains_char c s || contains_char c t.
Proof.
  induction s as [|x s IH]; simpl.
  - reflexivity.
  - rewrite IH. now rewrite orb_assoc.
Qed.

(** Replacing [c] by a text without [c] leaves no [c]. *)
Lemma replace_char_removes (c : ascii) (after s : string) :
  contains_char c after = false ->
  contains_char c (replace_char c after s) = false.
Proof.
  intros Hafter. induction s as [|x s IH]; simpl.
  - reflexivity.
  - destruct (Ascii.eqb x c) eqn:Hx.
    + rewrite contains_char_app, Hafter, IH. reflexivity.
    + simpl. rewrite Hx, IH. reflexivity.
Qed.

(** Without [c] in the text, nothing is replaced. *)
Lemma replace_char_absent (c : ascii) (after s : string) :
  contains_char c s = false -> replace_char c after s = s.
Proof.
  induction s as [|x s IH]; simpl; intros H.
  - reflexivity.
  - apply orb_false_iff in H. destruct H as [Hx Hs].
    rewrite Hx, (IH Hs). reflexivity.
Qed.

Lemma in_class_not_newline (c : ascii) : in_class c = true -> Ascii.eqb c newline = false.
Proof.
  intros H. destruct (Ascii.eqb c newline) eqn:Hc; [|reflexivity].
  apply Ascii.eqb_eq in Hc. subst c. discriminate H.
Qed.

Lemma replace_outside_class_in_class (s : string) (n : nat) (c : ascii) :
  String.get n (replace_outside_class s) = Some c -> in_class c = true.
Proof.
  revert n. induction s as [|x s IH]; intros n H.
  - destruct n; discriminate H.
  - destruct n as [|n]; simpl in H.
    + injection H as <-. destruct (in_class x) eqn:Hx; [exact Hx | reflexivity].
    + exact (IH n H).
Qed.

Lemma replace_outside_class_no_newline (s : string) :
  contains_char newline (replace_outside_class s) = false.
Proof.
  induction s as [|x s IH]; simpl.
  - reflexivity.
  - rewrite IH, orb_false_r. apply in_class_not_newline.
    destruct (in_class x) eqn:Hx; [exact Hx | reflexivity].
Qed.

Lemma replace_outside_class_length (s : string) :
  String.length (replace_outside_class s) = String.length s.
Proof.
  induction s as [|x s IH]; simpl; [reflexivity | now rewrite IH].
Qed.

Lemma replace_outside_class_get (s : string) (n : nat) :
  String.get n (replace_outside_class s)
  = option_map (fun c => if in_class c then c else underscore) (String.get n s).
Proof.
  revert n. induction s as [|x s IH]; intros n.
  - destruct n; reflexivity.
  - destruct n as [|n]; simpl; [reflexivity | apply IH].
Qed.

Lemma label_of_no_newline (m_id : QString) :
  contains_char newline (chars m_id) = false ->
  contains_char newline (label_of m_id) = false.
Proof.
  intros H. unfold label_of.
  rewrite !contains_char_app, H. reflexivity.
Qed.

(* ------------------------------------------------------------------------- *)
(** ** Properties of the engine and of the loader's helpers *)

Section Properties.
Context {E : Environment}.

Lemma log_eq (m_id text : QString) (level : LogLevel) (w : World E) :
  log m_id text level w
  = (tt, mkWorld (engine w) (host w) (hostlog w ++ [(logged_text m_id text, level)])).
Proof. reflexivity. Qed.

Lemma sendMessage_engine m_id message messageCode (w : World E) :
  engine (snd (sendMessage m_id message messageCode w)) = engine w
  /\ host (snd (sendMessage m_id message messageCode w)) = host w.
Proof.
  unfold sendMessage.
  destruct (negb (QByteArray_isEmpty message)); [|split; reflexivity].
  destruct (_ || _); split; reflexivity.
Qed.

Lemma emit_engine (s : Scriptable) (msgs : list Message) (w : World E) :
  engine (snd (emit s msgs w)) = engine w /\ host (snd (emit s msgs w)) = host w.
Proof.
  revert w. induction msgs as [|[message messageCode] rest IH]; intros w.
  - split; reflexivity.
  - simpl. unfold bind.
    destruct (sendMessage (receiver s) message messageCode w) as [u w1] eqn:Hs.
    pose proof (sendMessage_engine (receiver s) message messageCode w) as [He Hh].
    rewrite Hs in He, Hh. simpl in He, Hh.
    destruct (IH w1) as [He1 Hh1]. rewrite He1, Hh1, He, Hh. split; reflexivity.
Qed.

Lemma emit_nil (s : Scriptable) (w : World E) : emit s [] w = (tt, w).
Proof. reflexivity. Qed.

Lemma call_not_function s fn thisObject args (w : World E) :
  isFunction fn = false -> call s fn thisObject args w = (Invalid, w).
Proof.
  intros H. unfold call. destruct fn as [|[]]; try reflexivity. discriminate H.
Qed.

Lemma call_return s code thisObject args (w : World E) v h msgs :
  run code thisObject args (heap (engine w)) = (Return v, h, msgs) ->
  call s (Valid (JSFunction code)) thisObject args w
  = (Valid v,
     snd (emit s msgs
            (set_engine (mkEngine h (globalObject (engine w)) (uncaught (engine w))) w))).
Proof. intros H. unfold call. rewrite H. reflexivity. Qed.

Lemma call_throw s code thisObject args (w : World E) x h msgs :
  run code thisObject args (heap (engine w)) = (Throw x, h, msgs) ->
  call s (Valid (JSFunction code)) thisObject args w
  = (Valid x,
     snd (emit s msgs (set_engine (mkEngine h (globalObject (engine w)) (Some x)) w))).
Proof. intros H. unfold call. rewrite H. reflexivity. Qed.

(** A call never clears a pending exception. *)
Lemma call_keeps_pending s fn thisObject args (w : World E) :
  hasUncaughtException (engine w) = true ->
  hasUncaughtException (engine (snd (call s fn thisObject args w))) = true.
Proof.
  intros H. unfold call.
  destruct fn as [|[]]; try exact H.
  destruct (run code thisObject args (heap (engine w))) as [[[v|x] h] msgs]; simpl;
    rewrite (proj1 (emit_engine _ _ _)); simpl; [exact H | reflexivity].
Qed.

Lemma processUncaughtException_none m_id (w : World E) :
  uncaught (engine w) = None -> processUncaughtException m_id w = (false, w).
Proof. intros H. unfold processUncaughtException. rewrite H. reflexivity. Qed.


Lemma processUncaughtException_flag m_id (w : World E) :
  fst (processUncaughtException m_id w) = hasUncaughtException (engine w).
Proof.
  unfold processUncaughtException, hasUncaughtException.
  destruct (uncaught (engine w)); reflexivity.
Qed.

End Properties.

(* ------------------------------------------------------------------------- *)
(** ** Properties of the constructor *)

Section Construction.
Context {E : Environment}.

Ltac split_lets :=
  repeat match goal with
         | |- context [let (_, _) := ?x in _] => destruct x
         end.

(** The fields that do not depend on the evaluation of the script. *)
Lemma new_fields (scriptFilePath : QString) (scriptFile : QFile) (w : World E) :
  let l := fst (ItemLoaderScript_new scriptFilePath scriptFile w) in
  m_id l = QString_replace_regexp (QFileInfo_baseName scriptFilePath)
  /\ m_baseName l = m_id l
  /\ m_scriptable l = mkScriptable (m_id l)
  /\ m_script l = QString_fromUtf8 (readAll scriptFile).
Proof.
  unfold ItemLoaderScript_new, bind, ret.
  destruct scriptFile as [errorString|content]; simpl.
  - repeat split.
  - destruct (QString_isEmpty (QString_fromUtf8 content)); simpl.
    + repeat split.
    + split_lets; simpl; repeat split.
Qed.

(** The constructor on a readable, non-empty script, step by step. *)
Lemma new_readable (scriptFilePath : QString) (content : QByteArray) (w : World E) :
  QByteArray_isEmpty content = false ->
  let m_id := QString_replace_regexp (QFileInfo_baseName scriptFilePath) in
  let s := mkScriptable m_id in
  let w1 := snd (evaluated scriptFilePath content w) in
  let step := (if isFunction (factory w1)
               then call s (factory w1) Invalid []
               else ret (factory w1)) w1 in
  let check := processUncaughtException m_id (snd step) in
  ItemLoaderScript_new scriptFilePath (Readable content) w
  = (mkLoader s (if fst check then Invalid else fst step) m_id
              (QString_fromUtf8 content) m_id,
     snd check).
Proof.
  intros Hne. destruct content as [|c rest]; [discriminate Hne|].
  unfold ItemLoaderScript_new, evaluated, factory, bind, ret. simpl.
  destruct (eval _ _ _ w) as [r w1]. simpl.
  destruct (isFunction _).
  - destruct (call _ _ _ _ w1) as [obj w2]. simpl.
    destruct (processUncaughtException _ w2) as [failed w3]. reflexivity.
  - simpl. destruct (processUncaughtException _ w1) as [failed w3]. reflexivity.
Qed.

(** Nothing is evaluated when there is no source text. *)
Lemma new_empty (scriptFilePath : QString) (scriptFile : QFile) (w : World E) :
  QByteArray_isEmpty (readAll scriptFile) = true ->
  m_obj (fst (ItemLoaderScript_new scriptFilePath scriptFile w)) = Invalid.
Proof.
  intros Hempty. unfold ItemLoaderScript_new, bind, ret.
  destruct scriptFile as [errorString|content]; simpl in *.
  - reflexivity.
  - destruct content; [reflexivity | discriminate Hempty].
Qed.

End Construction.

(* ------------------------------------------------------------------------- *)
(** ** Resolution of members *)

Section Resolution.
Context {E : Environment}.

Lemma processUncaughtException_clears m_id (w : World E) :
  uncaught (engine (snd (processUncaughtException m_id w))) = None.
Proof.
  unfold processUncaughtException.
  destruct (uncaught (engine w)) eqn:H; simpl; [reflexivity | exact H].
Qed.

(** [value], step by step: the member is looked up and called if it is a
    function, then the engine is checked for an exception. *)
Lemma value_eq (l : ItemLoaderScript) (variableName : string) (w : World E) :
  let member := property (m_obj l) variableName in
  let step := (if isFunction member
               then call (m_scriptable l) member (m_obj l) []
               else ret member) w in
  let check := processUncaughtException (m_id l) (snd step) in
  value l variableName w = (if fst check then Invalid else fst step, snd check).
Proof.
  unfold value, bind, ret. cbv zeta.
  destruct (isFunction (property (m_obj l) variableName)).
  - destruct (call _ _ _ _ w) as [v w1]. simpl.
    destruct (processUncaughtException (m_id l) w1) as [[|] w2]; reflexivity.
  - simpl. destruct (processUncaughtException (m_id l) w) as [[|] w2]; reflexivity.
Qed.

Lemma value_clears (l : ItemLoaderScript) (variableName : string) (w : World E) :
  uncaught (engine (snd (value l variableName w))) = None.
Proof.
  rewrite value_eq. cbv zeta. simpl snd. apply processUncaughtException_clears.
Qed.

Lemma value_plain (l : ItemLoaderScript) (variableName : string) (w : World E) :
  isFunction (property (m_obj l) variableName) = false ->
  uncaught (engine w) = None ->
  value l variableName w = (property (m_obj l) variableName, w).
Proof.
  intros Hfn Hclear. rewrite value_eq. cbv zeta. rewrite Hfn. unfold ret. simpl.
  rewrite (processUncaughtException_none _ _ Hclear). reflexivity.
Qed.

(** The conversion to text, given what the engine does on the value. *)
Lemma QScriptValue_toString_eq (s : Scriptable) (v : QScriptValue) (w : World E)
    text h raised msgs :
  toString_script v (heap (engine w)) = (text, h, raised, msgs) ->
  QScriptValue_toString s v w
  = (text,
     snd (emit s msgs
            (set_engine
               (mkEngine h (globalObject (engine w))
                         (match raised with
                          | Some x => Some x
                          | None => uncaught (engine w)
                          end)) w))).
Proof. intros H. unfold QScriptValue_toString. rewrite H. reflexivity. Qed.

(** [stringValue] converts a valid value to text and returns the text
    unless it is null. *)
Lemma stringValue_valid (l : ItemLoaderScript) (variableName : string)
    (defaultValue : QString) (w : World E) (v : JSValue) :
  fst (value l variableName w) = Valid v ->
  let r := QScriptValue_toString (m_scriptable l) (Valid v)
             (snd (value l variableName w)) in
  stringValue l variableName defaultValue w
  = (if QString_isNull (fst r) then defaultValue else fst r, snd r).
Proof.
  intros H. unfold stringValue, bind, ret.
  destruct (value l variableName w) as [v0 w1]. cbn [fst snd] in *. subst v0.
  cbn [isValid].
  destruct (QScriptValue_toString (m_scriptable l) (Valid v) w1) as [text w2].
  cbn [fst snd]. destruct (QString_isNull text); reflexivity.
Qed.

(** What [stringValue] returns and leaves pending for a valid value. *)
Lemma stringValue_converted (l : ItemLoaderScript) (variableName : string)
    (defaultValue : QString) (w : World E) (v : JSValue) text h raised msgs :
  fst (value l variableName w) = Valid v ->
  toString_script (Valid v) (heap (engine (snd (value l variableName w))))
  = (text, h, raised, msgs) ->
  fst (stringValue l variableName defaultValue w)
  = (if QString_isNull text then defaultValue else text)
  /\ uncaught (engine (snd (stringValue l variableName defaultValue w))) = raised.
Proof.
  intros Hv Hconv. rewrite (stringValue_valid _ _ _ _ _ Hv). cbv zeta.
  rewrite (QScriptValue_toString_eq _ _ _ _ _ _ _ Hconv). cbn [fst snd].
  split; [reflexivity|].
  rewrite (proj1 (emit_engine _ _ _)). cbn [engine set_engine uncaught].
  rewrite value_clears. destruct raised; reflexivity.
Qed.

(** [stringValue] falls back to its default when [value] is invalid. *)
Lemma stringValue_invalid (l : ItemLoaderScript) (variableName : string)
    (defaultValue : QString) (w : World E) :
  fst (value l variableName w) = Invalid ->
  stringValue l variableName defaultValue w
  = (defaultValue, snd (value l variableName w)).
Proof.
  intros H. unfold stringValue, bind, ret.
  destruct (value l variableName w) as [v w1]. simpl in H. subst v. reflexivity.
Qed.

End Resolution.

(* ------------------------------------------------------------------------- *)
(** ** The identity of a loader *)

(** C7, as the code has it.  The identity of a loader is the base name of
    its script file with every character outside [[A-Za-z0-9_]] replaced
    by ['_']: it has the length of the base name and, position by position,
    the character of the base name when that is in the class and ['_']
    otherwise.  It depends on the path alone, whatever the file holds and
    whatever state the loader is built in, and no operation of the loader
    writes it.  The file name [my plugin!.js] has the base name
    [my plugin!] and yields the identity [my_plugin_]. *)
Theorem identity_from_base_name {E : Environment} :
  (forall (scriptFilePath : QString) (scriptFile : QFile) (w : World E),
      let l := fst (ItemLoaderScript_new scriptFilePath scriptFile w) in
      let base := chars (QFileInfo_baseName scriptFilePath) in
      String.length (chars (id l)) = String.length base
      /\ (forall n, String.get n (chars (id l))
                    = option_map (fun c => if in_class c then c else underscore)
                                 (String.get n base))
      /\ (forall scriptFile' w',
             id (fst (ItemLoaderScript_new scriptFilePath scriptFile' w')) = id l))
  /\ (forall (scriptFile : QFile) (w : World E),
         id (fst (ItemLoaderScript_new (QStr "my plugin!.js") scriptFile w))
         = QStr "my_plugin_").
Proof.
  split.
  - intros scriptFilePath scriptFile w l base.
    destruct (new_fields scriptFilePath scriptFile w) as [Hid _].
    fold l in Hid. unfold id. rewrite Hid. subst base. simpl chars.
    split; [apply replace_outside_class_length|].
    split; [intros n; apply replace_outside_class_get|].
    intros scriptFile' w'.
    destruct (new_fields scriptFilePath scriptFile' w') as [Hid' _].
    rewrite Hid'. reflexivity.
  - intros scriptFile w.
    destruct (new_fields (QStr "my plugin!.js") scriptFile w) as [Hid _].
    unfold id. rewrite Hid. reflexivity.
Qed.

(** C7 as stated fails on its own example: [my plugin!.js] does not yield
    [my_plugin__]. *)
Lemma identity_of_my_plugin_js :
  id (fst (Demo.load "my plugin!.js" "factory")) <> QStr "my_plugin__".
Proof. vm_compute. discriminate. Qed.

(* ------------------------------------------------------------------------- *)
(** ** The display name *)

Section Name.
Context {E : Environment}.

(** Without a [name] member the display name is the default, [m_baseName]. *)
Lemma name_default (l : ItemLoaderScript) (w : World E) :
  property (m_obj l) "name" = Invalid ->
  uncaught (engine w) = None ->
  name l w = (m_baseName l, w).
Proof.
  intros Hname Hclear. unfold name, stringValue, value, bind, ret.
  rewrite Hname. simpl.
  rewrite (processUncaughtException_none _ _ Hclear). reflexivity.
Qed.

(** A [name] member that is not a function is the display name, as the
    engine converts it to text, unless that text is null. *)
Lemma name_member (l : ItemLoaderScript) (w : World E) (v : JSValue)
    text h raised msgs :
  property (m_obj l) "name" = Valid v ->
  isFunction (Valid v) = false ->
  uncaught (engine w) = None ->
  toString_script (Valid v) (heap (engine w)) = (text, h, raised, msgs) ->
  QString_isNull text = false ->
  fst (name l w) = text.
Proof.
  intros Hname Hfn Hclear Hconv Htext. unfold name.
  assert (Hvalue : value l "name" w = (Valid v, w)).
  { rewrite (value_plain l "name" w) by (try rewrite Hname; assumption).
    now rewrite Hname. }
  destruct (stringValue_converted l "name" (m_baseName l) w v text h raised msgs)
    as [Hfst _]; [now rewrite Hvalue | now rewrite Hvalue |].
  rewrite Hfst, Htext. reflexivity.
Qed.

(** After construction [m_baseName] holds the identity, not the base name. *)
Lemma base_name_is_identity scriptFilePath scriptFile (w : World E) :
  let l := fst (ItemLoaderScript_new scriptFilePath scriptFile w) in
  m_baseName l = id l.
Proof. intros l. exact (proj1 (proj2 (new_fields scriptFilePath scriptFile w))). Qed.

End Name.

(** C2 at the script file [my plugin!.js] whose object has no [name]
    member: the loader is loaded, the base name of the file is
    [my plugin!], and [name()] returns [my_plugin_]. *)
Theorem name_of_my_plugin_js :
  let (l, w) := Demo.load "my plugin!.js" "plain" in
  isLoaded l = true
  /\ property (m_obj l) "name" = Invalid
  /\ QFileInfo_baseName (QStr "my plugin!.js") = QStr "my plugin!"
  /\ fst (name (E := Demo.env) l w) = QStr "my_plugin_".
Proof. vm_compute. repeat split. Qed.

(* ------------------------------------------------------------------------- *)
(** ** Logging *)

Lemma string_app_assoc (s t u : string) : (s ++ t) ++ u = s ++ (t ++ u).
Proof. induction s as [|x s IH]; simpl; [reflexivity | now rewrite IH]. Qed.

Lemma replace_char_app (c : ascii) (after s t : string) :
  replace_char c after (s ++ t) = replace_char c after s ++ replace_char c after t.
Proof.
  induction s as [|x s IH]; simpl.
  - reflexivity.
  - destruct (Ascii.eqb x c); rewrite IH.
    + now rewrite string_app_assoc.
    + reflexivity.
Qed.

Lemma prefix_app (s t : string) : String.prefix s (s ++ t) = true.
Proof.
  induction s as [|x s IH]; simpl.
  - destruct t; reflexivity.
  - destruct (ascii_dec x x) as [_|Hne]; [exact IH | now elim Hne].
Qed.

(** C10: a message with no text is dropped, whatever its code (so also for
    the error, bad-syntax and exception codes): the slot leaves the log and
    everything else as they are. *)
Theorem sendMessage_empty {E : Environment} (m_id : QString) (messageCode : Z)
    (w : World E) :
  sendMessage m_id EmptyString messageCode w = (tt, w).
Proof. reflexivity. Qed.

(** A message with text is logged once, as a warning for the three codes
    and as a note otherwise. *)
Lemma sendMessage_text {E : Environment} (m_id : QString) (message : QByteArray)
    (messageCode : Z) (w : World E) :
  QByteArray_isEmpty message = false ->
  let level := if (messageCode =? CommandError)%Z
                  || (messageCode =? CommandBadSyntax)%Z
                  || (messageCode =? CommandException)%Z
               then LogWarning else LogNote in
  hostlog (snd (sendMessage m_id message messageCode w))
  = (hostlog w ++ [(logged_text m_id (QStr message), level)])%list.
Proof.
  intros Hne. unfold sendMessage. rewrite Hne. simpl negb. cbv iota.
  destruct (_ || _); reflexivity.
Qed.

(** C9 at the text of the two lines [a] and [b], logged for the identity
    [x]: the sink receives the single line [scripts::x: ascripts::x: b].
    For every loader, the text handed to the sink starts with the label of
    the loader and holds no newline at all: each newline of the text is
    replaced by the label, not followed by it. *)
Theorem log_joins_lines :
  hostlog (snd (log (E := Demo.env) (QStr "x") (QStr ("a" ++ String newline "b"))
                    LogNote Demo.world0))
  = [(QStr "scripts::x: ascripts::x: b", LogNote)]
  /\ (forall (E : Environment) scriptFilePath scriptFile (w0 : World E)
             (text : QString) (level : LogLevel) (w : World E),
         let l := fst (ItemLoaderScript_new scriptFilePath scriptFile w0) in
         exists t : string,
           hostlog (snd (log (id l) text level w))
           = (hostlog w ++ [(QStr t, level)])%list
           /\ String.prefix (label_of (id l)) t = true
           /\ contains_char newline t = false).
Proof.
  split; [reflexivity|].
  intros E scriptFilePath scriptFile w0 text level w l.
  assert (Hid : contains_char newline (chars (id l)) = false).
  { destruct (new_fields scriptFilePath scriptFile w0) as [Hid _].
    fold l in Hid. unfold id. rewrite Hid. simpl.
    apply replace_outside_class_no_newline. }
  pose proof (label_of_no_newline _ Hid) as Hlabel.
  exists (replace_char newline (label_of (id l)) (label_of (id l) ++ chars text)).
  split; [reflexivity|]. split.
  - rewrite replace_char_app, (replace_char_absent _ _ _ Hlabel).
    apply prefix_app.
  - apply replace_char_removes. exact Hlabel.
Qed.

(* ------------------------------------------------------------------------- *)
(** ** The saver chain *)

Section Savers.
Context {E : Environment}.

(** A node is never the saver it wraps. *)
Lemma node_is_new (saver : ItemSaver E) (obj : QScriptValue) (s : Scriptable) :
  ItemSaverScript saver obj s <> saver.
Proof.
  induction saver as [impl|inner IH obj' s']; intros H.
  - discriminate H.
  - injection H as Hinner Hobj Hs. subst obj' s'. exact (IH Hinner).
Qed.

(** The hook when the script has no function of that name. *)
Lemma hook_absent obj s fnName itemData (w : World E) :
  isFunction (property obj fnName) = false ->
  transformItemData_fn obj s fnName itemData w = (itemData, w).
Proof.
  intros H. unfold transformItemData_fn. rewrite H. reflexivity.
Qed.

(** The hook when the function returns. *)
Lemma hook_return obj s fnName itemData (w : World E) code r h msgs :
  property obj fnName = Valid (JSFunction code) ->
  run code obj [fromDataMap itemData] (heap (engine w)) = (Return r, h, msgs) ->
  transformItemData_fn obj s fnName itemData w
  = (if isUndefined (Valid r) || isNull (Valid r)
     then itemData else toDataMap (Valid r),
     snd (emit s msgs
            (set_engine (mkEngine h (globalObject (engine w)) (uncaught (engine w))) w))).
Proof.
  intros Hfn Hrun. unfold transformItemData_fn, bind, ret.
  rewrite Hfn. cbn [isFunction negb]. rewrite (call_return _ _ _ _ _ _ _ _ Hrun).
  destruct (isUndefined (Valid r) || isNull (Valid r)); reflexivity.
Qed.


End Savers.

(** C6: when neither [copyItem] nor [transformItemData] is a function of
    the script object, [transformSaver] returns the saver it was given;
    when at least one of them is a function it returns a node that wraps
    that saver with the script object, and the node is not the saver. *)
Theorem transformSaver_wraps_when_needed {E : Environment}
    (l : ItemLoaderScript) (saver : ItemSaver E) :
  (isFunction (property (m_obj l) "copyItem") = false ->
   isFunction (property (m_obj l) "transformItemData") = false ->
   transformSaver l saver = saver)
  /\ (isFunction (property (m_obj l) "copyItem") = true
      \/ isFunction (property (m_obj l) "transformItemData") = true ->
      transformSaver l saver = ItemSaverScript saver (m_obj l) (m_scriptable l)
      /\ transformSaver l saver <> saver).
Proof.
  unfold transformSaver. split.
  - intros H1 H2. rewrite H1, H2. reflexivity.
  - intros H.
    assert (Hor : isFunction (property (m_obj l) "copyItem")
                  || isFunction (property (m_obj l) "transformItemData") = true)
      by (apply orb_true_iff; exact H).
    rewrite Hor. split; [reflexivity | apply node_is_new].
Qed.

Lemma transformSaver_wraps_when_needed_witness :
  transformSaver (fst (Demo.load "p.js" "plain")) Demo.builtin = Demo.builtin
  /\ transformSaver (fst (Demo.load "p.js" "factory")) Demo.builtin
     <> Demo.builtin.
Proof.
  split.
  - apply (proj1 (transformSaver_wraps_when_needed
                    (fst (Demo.load "p.js" "plain")) Demo.builtin));
      reflexivity.
  - apply (proj2 (transformSaver_wraps_when_needed
                    (fst (Demo.load "p.js" "factory")) Demo.builtin)).
    left. reflexivity.
Defined.

(** C5: a node's [copyItem] first has the wrapped saver copy the item and
    then calls the script's [copyItem] function on that copy, in the state
    the wrapped saver left.  When the function returns undefined or null
    the node returns the copy of the wrapped saver; any other returned
    value replaces it, converted by [toDataMap]. *)
Theorem copyItem_keeps_base_on_undefined {E : Environment}
    (inner : ItemSaver E) (obj : QScriptValue) (s : Scriptable)
    (model : QAbstractItemModel) (itemData : QVariantMap)
    (w : World E) (code : nat) (r : JSValue) (h : Heap) (msgs : list Message) :
  let base := fst (copyItem inner model itemData w) in
  let w1 := snd (copyItem inner model itemData w) in
  property obj "copyItem" = Valid (JSFunction code) ->
  run code obj [fromDataMap base] (heap (engine w1)) = (Return r, h, msgs) ->
  let result := fst (copyItem (ItemSaverScript inner obj s) model itemData w) in
  (isUndefined (Valid r) || isNull (Valid r) = true -> result = base)
  /\ (isUndefined (Valid r) || isNull (Valid r) = false ->
      result = toDataMap (Valid r)).
Proof.
  intros base w1 Hfn Hrun result. subst result base w1.
  simpl copyItem. unfold bind.
  destruct (copyItem inner model itemData w) as [base w1]. simpl in *.
  rewrite (hook_return _ _ _ _ _ _ _ _ _ Hfn Hrun). simpl.
  split; intros Hr; rewrite Hr; reflexivity.
Qed.

Lemma copyItem_keeps_base_on_undefined_witness :
  fst (copyItem (E := Demo.env)
         (ItemSaverScript Demo.builtin (Valid Demo.handler) (mkScriptable (QStr "p")))
         tt Demo.item Demo.world0)
  = Demo.item.
Proof.
  apply (proj1 (copyItem_keeps_base_on_undefined (E := Demo.env)
                  Demo.builtin (Valid Demo.handler) (mkScriptable (QStr "p"))
                  tt Demo.item Demo.world0 1%nat JSUndefined 1%nat []
                  eq_refl eq_refl)).
  reflexivity.
Defined.

(** A returned record replaces the copy of the wrapped saver. *)
Example copyItem_replaces_on_record :
  fst (copyItem (E := Demo.env)
         (ItemSaverScript Demo.builtin
            (Valid (JSObject [("copyItem", JSFunction 5)])) (mkScriptable (QStr "p")))
         tt Demo.item Demo.world0)
  = [("text/plain", "changed")].
Proof. reflexivity. Qed.

(** C1 at a script object whose [transformItemData] throws an error
    object, without sending any message: the wrapped saver leaves the item
    as it was, the node returns the error object converted by [toDataMap]
    instead, nothing is added to the log, and the exception is still
    pending in the engine when the node returns. *)
Theorem throwing_hook_replaces_record :
  let (l, w) := Demo.load "p.js" "factory" in
  let node := transformSaver l Demo.builtin in
  let (record, w') := transformItemData (E := Demo.env) node tt Demo.item w in
  property (m_obj l) "transformItemData" = Valid (JSFunction 2)
  /\ fst (Demo.interpret 2 (m_obj l) [Demo.marshal Demo.item] 1%nat)
     = (Throw Demo.error, 2%nat)
  /\ fst (transformItemData (E := Demo.env) Demo.builtin tt Demo.item w) = Demo.item
  /\ record = [("message", "boom")]
  /\ record <> Demo.item
  /\ hostlog w' = hostlog w
  /\ uncaught (engine w') = Some Demo.error.
Proof. vm_compute. repeat split. discriminate. Qed.

(* ------------------------------------------------------------------------- *)
(** ** Metadata *)



(* ------------------------------------------------------------------------- *)
(** ** Loading *)

(** C3, as the code has it.  After a non-empty script has been evaluated
    the loader reads the global [copyq_script].  When it is a function and
    no exception is pending, it is called with no argument and what it
    returns becomes the script object.  When there is no such global, the
    script object is invalid and the loader is not loaded, whatever the
    evaluation of the script resulted in: that result is not used. *)
Theorem factory_result_is_handler {E : Environment}
    (scriptFilePath : QString) (content : QByteArray) (w : World E) :
  QByteArray_isEmpty content = false ->
  let l := fst (ItemLoaderScript_new scriptFilePath (Readable content) w) in
  let w1 := snd (evaluated scriptFilePath content w) in
  (forall code v h msgs,
      factory w1 = Valid (JSFunction code) ->
      uncaught (engine w1) = None ->
      run code Invalid [] (heap (engine w1)) = (Return v, h, msgs) ->
      m_obj l = Valid v)
  /\ (factory w1 = Invalid -> m_obj l = Invalid /\ isLoaded l = false).
Proof.
  intros Hne l w1. subst l.
  rewrite (new_readable scriptFilePath content w Hne). cbv zeta. fold w1.
  cbn [fst m_obj]. split.
  - intros code v h msgs Hfn Hclear Hrun.
    rewrite Hfn. cbn [isFunction].
    rewrite (call_return _ _ _ _ _ _ _ _ Hrun). cbn [fst snd].
    rewrite processUncaughtException_none; [reflexivity|].
    rewrite (proj1 (emit_engine _ _ _)). exact Hclear.
  - intros Habsent. rewrite Habsent. cbn [isFunction]. unfold ret. cbn [fst snd].
    unfold isLoaded. cbn [m_obj].
    destruct (fst (processUncaughtException _ w1)); split; reflexivity.
Qed.

Lemma factory_result_is_handler_witness :
  m_obj (fst (Demo.load "p.js" "factory")) = Valid Demo.handler
  /\ m_obj (fst (Demo.load "p.js" "object")) = Invalid.
Proof.
  split.
  - apply (proj1 (factory_result_is_handler (E := Demo.env)
                    (QStr "p.js") "factory" Demo.world0 eq_refl)
             0%nat Demo.handler 1%nat [] eq_refl eq_refl eq_refl).
  - apply (proj2 (factory_result_is_handler (E := Demo.env)
                    (QStr "p.js") "object" Demo.world0 eq_refl) eq_refl).
Defined.

(** C3 as stated fails: the script ["object"] evaluates to an object and
    defines no [copyq_script]; its evaluation result does not become the
    script object, which stays invalid. *)
Lemma evaluation_result_is_not_handler :
  let r := fst (evaluated (E := Demo.env) (QStr "p.js") "object" Demo.world0) in
  let w1 := snd (evaluated (E := Demo.env) (QStr "p.js") "object" Demo.world0) in
  factory w1 = Invalid
  /\ isObject r = true
  /\ m_obj (fst (Demo.load "p.js" "object")) <> r
  /\ isLoaded (fst (Demo.load "p.js" "object")) = false.
Proof. vm_compute. repeat split. discriminate. Qed.

(** A global [copyq_script] that is not a function is the script object
    itself. *)
Lemma plain_factory_is_handler {E : Environment}
    (scriptFilePath : QString) (content : QByteArray) (w : World E) :
  QByteArray_isEmpty content = false ->
  let w1 := snd (evaluated scriptFilePath content w) in
  isFunction (factory w1) = false ->
  uncaught (engine w1) = None ->
  m_obj (fst (ItemLoaderScript_new scriptFilePath (Readable content) w)) = factory w1.
Proof.
  intros Hne w1 Hfn Hclear.
  rewrite (new_readable scriptFilePath content w Hne). cbv zeta. fold w1.
  cbn [fst m_obj]. rewrite Hfn. unfold ret. cbn [fst snd].
  rewrite (processUncaughtException_none _ _ Hclear). reflexivity.
Qed.

(** C8: the loader is not loaded
    - when there is no source text (the file is empty or cannot be read),
    - when an exception is pending after the evaluation of the script,
    - when the call of the factory throws,
    - when the script object is not an object;
    and [createItemLoaderScript] returns the null pointer exactly when the
    loader it built is not loaded, and that loader otherwise. *)
Theorem not_loaded_is_excluded {E : Environment}
    (scriptFilePath : QString) (scriptFile : QFile) (w : World E) :
  let l := fst (ItemLoaderScript_new scriptFilePath scriptFile w) in
  (QByteArray_isEmpty (readAll scriptFile) = true -> isLoaded l = false)
  /\ (forall content,
         scriptFile = Readable content ->
         QByteArray_isEmpty content = false ->
         hasUncaughtException (engine (snd (evaluated scriptFilePath content w))) = true ->
         isLoaded l = false)
  /\ (forall content code x h msgs,
         scriptFile = Readable content ->
         QByteArray_isEmpty content = false ->
         let w1 := snd (evaluated scriptFilePath content w) in
         factory w1 = Valid (JSFunction code) ->
         run code Invalid [] (heap (engine w1)) = (Throw x, h, msgs) ->
         isLoaded l = false)
  /\ (isObject (m_obj l) = false -> isLoaded l = false)
  /\ (fst (createItemLoaderScript scriptFilePath scriptFile w) = None
      <-> isLoaded l = false)
  /\ (isLoaded l = true ->
      fst (createItemLoaderScript scriptFilePath scriptFile w) = Some l).
Proof.
  intros l. subst l. split.
  { intros Hempty. unfold isLoaded. rewrite (new_empty _ _ _ Hempty). reflexivity. }
  split.
  { intros content -> Hne Hpending. unfold isLoaded.
    rewrite (new_readable scriptFilePath content w Hne). cbv zeta. cbn [fst m_obj].
    rewrite processUncaughtException_flag.
    set (w1 := snd (evaluated scriptFilePath content w)) in *.
    destruct (isFunction (factory w1)).
    - rewrite (call_keeps_pending _ _ _ _ _ Hpending). reflexivity.
    - unfold ret. cbn [snd]. rewrite Hpending. reflexivity. }
  split.
  { intros content code x h msgs -> Hne w1 Hfn Hrun. unfold isLoaded.
    rewrite (new_readable scriptFilePath content w Hne). cbv zeta. fold w1.
    cbn [fst m_obj]. rewrite processUncaughtException_flag.
    rewrite Hfn. cbn [isFunction]. rewrite (call_throw _ _ _ _ _ _ _ _ Hrun).
    cbn [snd]. unfold hasUncaughtException.
    rewrite (proj1 (emit_engine _ _ _)). reflexivity. }
  split; [intros H; exact H|].
  unfold createItemLoaderScript, bind, ret.
  destruct (ItemLoaderScript_new scriptFilePath scriptFile w) as [l w'].
  cbn [fst]. destruct (isLoaded l); cbn [fst]; split.
  - split; intros H; discriminate H.
  - reflexivity.
  - split; reflexivity.
  - intros H; discriminate H.
Qed.

Lemma not_loaded_is_excluded_witness :
  isLoaded (fst (Demo.load "p.js" EmptyString)) = false
  /\ isLoaded (fst (Demo.load "p.js" "syntax error here")) = false
  /\ isLoaded (fst (Demo.load "p.js" "throwing factory")) = false
  /\ fst (createItemLoaderScript (E := Demo.env) (QStr "p.js")
            (Unreadable (QStr "No such file")) Demo.world0) = None.
Proof.
  split; [|split; [|split]].
  - apply (proj1 (not_loaded_is_excluded (E := Demo.env)
                    (QStr "p.js") (Readable EmptyString) Demo.world0)).
    reflexivity.
  - apply (proj1 (proj2 (not_loaded_is_excluded (E := Demo.env)
                    (QStr "p.js") (Readable "syntax error here") Demo.world0))
             "syntax error here"); reflexivity.
  - apply (proj1 (proj2 (proj2 (not_loaded_is_excluded (E := Demo.env)
                    (QStr "p.js") (Readable "throwing factory") Demo.world0)))
             "throwing factory" 4%nat Demo.error 1%nat []); reflexivity.
  - apply (proj1 (proj2 (proj2 (proj2 (proj2 (not_loaded_is_excluded (E := Demo.env)
                    (QStr "p.js") (Unreadable (QStr "No such file")) Demo.world0)))))).
    apply (proj1 (not_loaded_is_excluded (E := Demo.env)
                    (QStr "p.js") (Unreadable (QStr "No such file")) Demo.world0)).
    reflexivity.
Defined.

(* ------------------------------------------------------------------------- *)
(** * Further properties of the script loader *)

Section Messages.
Context {E : Environment}.

Lemma world_eta (w : World E) : mkWorld (engine w) (host w) (hostlog w) = w.
Proof. destruct w; reflexivity. Qed.

Lemma sendMessage_eq m_id message messageCode (w : World E) :
  sendMessage m_id message messageCode w
  = (tt, mkWorld (engine w) (host w)
                 (hostlog w ++ events_of m_id [(message, messageCode)])).
Proof.
  unfold sendMessage, events_of, level_of.
  destruct (QByteArray_isEmpty message); simpl.
  - rewrite app_nil_r, world_eta. reflexivity.
  - destruct (_ || _); reflexivity.
Qed.

Lemma events_of_cons m_id message messageCode rest :
  events_of m_id ((message, messageCode) :: rest)
  = (events_of m_id [(message, messageCode)] ++ events_of m_id rest)%list.
Proof. simpl. destruct (QByteArray_isEmpty message); reflexivity. Qed.

Lemma emit_eq (s : Scriptable) (msgs : list Message) (w : World E) :
  emit s msgs w
  = (tt, mkWorld (engine w) (host w) (hostlog w ++ events_of (receiver s) msgs)).
Proof.
  revert w. induction msgs as [|[message messageCode] rest IH]; intros w.
  - simpl. rewrite app_nil_r, world_eta. reflexivity.
  - cbn [emit]. unfold bind. rewrite sendMessage_eq, IH. cbn [engine host hostlog].
    rewrite (events_of_cons _ message messageCode rest), app_assoc. reflexivity.
Qed.

End Messages.

(** X1: the messages a script sends reach the log one by one and in order:
    a message without text leaves nothing, every other message leaves one
    event, a warning for the error, bad-syntax and exception codes and a
    note otherwise.  The engine and the host are not touched. *)
Theorem emit_logs_each_message {E : Environment}
    (s : Scriptable) (msgs : list Message) (w : World E) :
  emit s msgs w
  = (tt, mkWorld (engine w) (host w) (hostlog w ++ events_of (receiver s) msgs))
  /\ length (events_of (receiver s) msgs)
     = length (filter (fun m => negb (QByteArray_isEmpty (fst m))) msgs)
  /\ (forall text level, In (text, level) (events_of (receiver s) msgs) ->
        exists message messageCode,
          In (message, messageCode) msgs
          /\ QByteArray_isEmpty message = false
          /\ text = logged_text (receiver s) (QStr message)
          /\ (level = LogWarning <->
              messageCode = CommandError \/ messageCode = CommandBadSyntax
              \/ messageCode = CommandException)
          /\ (level = LogWarning \/ level = LogNote)).
Proof.
  split; [apply emit_eq|]. split.
  - induction msgs as [|[message messageCode] rest IH]; [reflexivity|].
    simpl. destruct (QByteArray_isEmpty message); simpl; now rewrite IH.
  - induction msgs as [|[message messageCode] rest IH]; intros text level Hin.
    + destruct Hin.
    + simpl in Hin. destruct (QByteArray_isEmpty message) eqn:Hempty.
      * destruct (IH text level Hin) as (m & c & Hm & Hrest).
        exists m, c. split; [right; exact Hm | exact Hrest].
      * destruct Hin as [Heq|Hin].
        -- injection Heq as <- <-. exists message, messageCode.
           split; [left; reflexivity|]. split; [exact Hempty|].
           split; [reflexivity|]. unfold level_of.
           destruct (messageCode =? CommandError)%Z eqn:H1;
             destruct (messageCode =? CommandBadSyntax)%Z eqn:H2;
             destruct (messageCode =? CommandException)%Z eqn:H3; simpl;
             try apply Z.eqb_eq in H1; try apply Z.eqb_eq in H2;
             try apply Z.eqb_eq in H3;
             (split; [split; [intros _; tauto | reflexivity] | tauto]) ||
             idtac.
           apply Z.eqb_neq in H1, H2, H3.
           split; [|right; reflexivity].
           split; [intros H; discriminate H | intros [H|[H|H]]; contradiction].
        -- destruct (IH text level Hin) as (m & c & Hm & Hrest).
           exists m, c. split; [right; exact Hm | exact Hrest].
Qed.

Lemma emit_logs_each_message_witness :
  exists message messageCode,
    In (message, messageCode) [("", 1%Z); ("oops", 4%Z); ("hello", 0%Z)]
    /\ QByteArray_isEmpty message = false
    /\ QStr "scripts::p: oops" = logged_text (QStr "p") (QStr message)
    /\ (LogWarning = LogWarning <->
        messageCode = 1%Z \/ messageCode = 2%Z \/ messageCode = 4%Z)
    /\ (LogWarning = LogWarning \/ LogWarning = LogNote).
Proof.
  apply (proj2 (proj2 (emit_logs_each_message (E := Demo.env)
                         (mkScriptable (QStr "p"))
                         [("", 1%Z); ("oops", 4%Z); ("hello", 0%Z)] Demo.world0))
           (QStr "scripts::p: oops") LogWarning).
  simpl. left. reflexivity.
Defined.

(** X2: the constructor, on a script with text, and [value] leave no
    exception pending in the engine: whatever the script threw has been
    logged and cleared when they return.  [stringValue], and with it
    [name], [author] and [description], converts the resolved value to text
    after that check and does not check again: the exception pending when
    it returns is the one that conversion raised, and none when nothing
    valid was resolved. *)
Theorem pending_exception_after_loader {E : Environment} :
  (forall scriptFilePath content (w : World E),
      QByteArray_isEmpty content = false ->
      uncaught (engine (snd (ItemLoaderScript_new scriptFilePath (Readable content) w)))
      = None)
  /\ (forall l variableName (w : World E),
         uncaught (engine (snd (value l variableName w))) = None)
  /\ (forall l variableName defaultValue (w : World E),
         fst (value l variableName w) = Invalid ->
         uncaught (engine (snd (stringValue l variableName defaultValue w))) = None)
  /\ (forall l variableName defaultValue (w : World E) v text h raised msgs,
         fst (value l variableName w) = Valid v ->
         toString_script (Valid v) (heap (engine (snd (value l variableName w))))
         = (text, h, raised, msgs) ->
         uncaught (engine (snd (stringValue l variableName defaultValue w))) = raised).
Proof.
  split; [|split; [|split]].
  - intros scriptFilePath content w Hne.
    rewrite (new_readable scriptFilePath content w Hne). cbv zeta. cbn [snd].
    apply processUncaughtException_clears.
  - intros l variableName w. apply value_clears.
  - intros l variableName defaultValue w Hinvalid.
    rewrite (stringValue_invalid _ _ _ _ Hinvalid). cbn [snd]. apply value_clears.
  - intros l variableName defaultValue w v text h raised msgs Hv Hconv.
    exact (proj2 (stringValue_converted _ _ _ _ _ _ _ _ _ Hv Hconv)).
Qed.

Lemma pending_exception_after_loader_witness :
  uncaught (engine (snd (Demo.load "p.js" "throwing factory"))) = None
  /\ uncaught (engine (snd (stringValue (E := Demo2.env)
                              (mkLoader
                                 (mkScriptable (QStr "p"))
                                 (Valid (JSObject
                                    [("name", JSObject [("toString", JSFunction 9)])]))
                                 (QStr "p") (QStr "script") (QStr "p"))
                              "name" (QStr "p") Demo2.world0)))
     = Some Demo.error.
Proof.
  split.
  - apply (proj1 (pending_exception_after_loader (E := Demo.env))
             (QStr "p.js") "throwing factory" Demo.world0).
    reflexivity.
  - apply (proj2 (proj2 (proj2 (pending_exception_after_loader (E := Demo2.env))))
             (mkLoader
                (mkScriptable (QStr "p"))
                (Valid (JSObject [("name", JSObject [("toString", JSFunction 9)])]))
                (QStr "p") (QStr "script") (QStr "p"))
             "name" (QStr "p") Demo2.world0
             (JSObject [("toString", JSFunction 9)]) (QStr EmptyString) 1%nat
             (Some Demo.error) [("converting", 0%Z)] eq_refl eq_refl).
Defined.

(** X3: a file that cannot be opened leaves exactly one event in the log,
    at the error level and under the label of the loader, and a file
    without text leaves none; in both cases nothing is evaluated (the
    engine and the host stay as they were), the script object is invalid
    and [createItemLoaderScript] returns the null pointer. *)
Theorem no_source_text_no_loader {E : Environment}
    (scriptFilePath : QString) (w : World E) :
  (forall errorString,
      let r := ItemLoaderScript_new scriptFilePath (Unreadable errorString) w in
      engine (snd r) = engine w
      /\ host (snd r) = host w
      /\ (exists text,
             hostlog (snd r) = (hostlog w ++ [(QStr text, LogError)])%list
             /\ String.prefix (label_of (id (fst r))) text = true)
      /\ m_obj (fst r) = Invalid
      /\ fst (createItemLoaderScript scriptFilePath (Unreadable errorString) w) = None)
  /\ (snd (ItemLoaderScript_new scriptFilePath (Readable EmptyString) w) = w
      /\ m_obj (fst (ItemLoaderScript_new scriptFilePath (Readable EmptyString) w))
         = Invalid
      /\ createItemLoaderScript scriptFilePath (Readable EmptyString) w = (None, w)).
Proof.
  split.
  - intros errorString r. subst r.
    unfold createItemLoaderScript, ItemLoaderScript_new, bind, ret.
    rewrite log_eq. cbn -[logged_text].
    repeat split.
    eexists. split; [reflexivity|].
    set (label := label_of _).
    assert (Hlabel : contains_char newline label = false).
    { apply label_of_no_newline. simpl. apply replace_outside_class_no_newline. }
    rewrite replace_char_app, (replace_char_absent _ _ _ Hlabel). apply prefix_app.
  - unfold createItemLoaderScript, ItemLoaderScript_new, bind, ret. simpl.
    repeat split.
Qed.

(** X4: a factory that returns something that is not an object (a number,
    a text, undefined) gives no loader: the loader is not loaded and
    [createItemLoaderScript] returns the null pointer, and the constructor
    logs nothing of its own, only what the script sent. *)
Theorem factory_must_return_object {E : Environment}
    (scriptFilePath : QString) (content : QByteArray) (w : World E)
    (code : nat) (v : JSValue) (h : Heap) (msgs : list Message) :
  QByteArray_isEmpty content = false ->
  let w1 := snd (evaluated scriptFilePath content w) in
  factory w1 = Valid (JSFunction code) ->
  uncaught (engine w1) = None ->
  run code Invalid [] (heap (engine w1)) = (Return v, h, msgs) ->
  isObject (Valid v) = false ->
  let r := ItemLoaderScript_new scriptFilePath (Readable content) w in
  isLoaded (fst r) = false
  /\ fst (createItemLoaderScript scriptFilePath (Readable content) w) = None
  /\ hostlog (snd r)
     = (hostlog w1 ++ events_of (QString_replace_regexp (QFileInfo_baseName scriptFilePath))
                                msgs)%list.
Proof.
  intros Hne w1 Hfn Hclear Hrun Hobj r.
  assert (Hr : r = (mkLoader
                      (mkScriptable (QString_replace_regexp (QFileInfo_baseName scriptFilePath)))
                      (Valid v)
                      (QString_replace_regexp (QFileInfo_baseName scriptFilePath))
                      (QString_fromUtf8 content)
                      (QString_replace_regexp (QFileInfo_baseName scriptFilePath)),
                    snd (emit (mkScriptable
                                 (QString_replace_regexp (QFileInfo_baseName scriptFilePath)))
                              msgs
                              (set_engine (mkEngine h (globalObject (engine w1))
                                                    (uncaught (engine w1))) w1)))).
  { subst r. rewrite (new_readable scriptFilePath content w Hne). cbv zeta. fold w1.
    rewrite Hfn. cbn [isFunction]. rewrite (call_return _ _ _ _ _ _ _ _ Hrun).
    cbn [fst snd]. rewrite processUncaughtException_none; [reflexivity|].
    rewrite (proj1 (emit_engine _ _ _)). exact Hclear. }
  unfold createItemLoaderScript, bind, ret. fold r. rewrite Hr. cbn [fst snd].
  unfold isLoaded. cbn [m_obj]. rewrite Hobj. cbn [fst].
  split; [reflexivity|]. split; [reflexivity|].
  rewrite emit_eq. reflexivity.
Qed.

Lemma factory_must_return_object_witness :
  isLoaded (fst (ItemLoaderScript_new (E := Demo2.env) (QStr "p.js")
                   (Readable "number factory") Demo2.world0)) = false
  /\ fst (createItemLoaderScript (E := Demo2.env) (QStr "p.js")
            (Readable "number factory") Demo2.world0) = None
  /\ hostlog (snd (ItemLoaderScript_new (E := Demo2.env) (QStr "p.js")
                     (Readable "number factory") Demo2.world0))
     = [(QStr "scripts::p: made a number", LogNote)].
Proof.
  exact (factory_must_return_object (E := Demo2.env) (QStr "p.js") "number factory"
           Demo2.world0 7%nat (JSNumber 42) 1%nat [("made a number", 0%Z)]
           eq_refl eq_refl eq_refl eq_refl eq_refl).
Defined.

(** X5: a global [copyq_script] that is not a function is the script
    object as it is: nothing is called, the state is the one the
    evaluation left, and the loader is loaded exactly when that global is
    an object. *)
Theorem global_object_is_handler {E : Environment}
    (scriptFilePath : QString) (content : QByteArray) (w : World E) :
  QByteArray_isEmpty content = false ->
  let w1 := snd (evaluated scriptFilePath content w) in
  isFunction (factory w1) = false ->
  uncaught (engine w1) = None ->
  let r := ItemLoaderScript_new scriptFilePath (Readable content) w in
  m_obj (fst r) = factory w1
  /\ snd r = w1
  /\ isLoaded (fst r) = isObject (factory w1).
Proof.
  intros Hne w1 Hfn Hclear r. subst r.
  rewrite (new_readable scriptFilePath content w Hne). cbv zeta. fold w1.
  rewrite Hfn. unfold ret, isLoaded. cbn [fst snd m_obj].
  rewrite (processUncaughtException_none _ _ Hclear). repeat split.
Qed.

Lemma global_object_is_handler_witness :
  m_obj (fst (Demo.load "p.js" "plain")) = Valid Demo.plain
  /\ snd (Demo.load "p.js" "plain")
     = mkWorld (E := Demo.env)
         (mkEngine 0%nat [(scriptFunctionName, Demo.plain)] None) tt []
  /\ isLoaded (fst (Demo.load "p.js" "plain")) = true.
Proof.
  exact (global_object_is_handler (E := Demo.env) (QStr "p.js") "plain" Demo.world0
           eq_refl eq_refl eq_refl).
Defined.

(* ------------------------------------------------------------------------- *)
(** ** Further properties of the saver chain *)

(** X6: however many script nodes a chain has, [saveItems],
    [canRemoveItems], [canMoveItems] and [itemsRemovedByUser] are those of
    the saver of the host at its bottom: the script takes no part in
    them. *)
Theorem chain_passes_through {E : Environment} (s : ItemSaver E) :
  (forall tabName model file,
      saveItems s tabName model file = host_saveItems (innermost s) tabName model file)
  /\ (forall indexList,
         canRemoveItems s indexList = host_canRemoveItems (innermost s) indexList)
  /\ (forall indexList,
         canMoveItems s indexList = host_canMoveItems (innermost s) indexList)
  /\ (forall indexList,
         itemsRemovedByUser s indexList
         = host_itemsRemovedByUser (innermost s) indexList).
Proof.
  induction s as [impl|inner IH obj sc].
  - repeat split.
  - destruct IH as (H1 & H2 & H3 & H4). simpl. repeat split; assumption.
Qed.

(** X7: a node whose script object has no function [copyItem] copies items
    exactly as the saver it wraps, and one without a function
    [transformItemData] transforms them exactly as the saver it wraps:
    result and state are the same. *)
Theorem node_without_hook_is_transparent {E : Environment}
    (inner : ItemSaver E) (obj : QScriptValue) (s : Scriptable)
    (model : QAbstractItemModel) (itemData : QVariantMap) (w : World E) :
  (isFunction (property obj "copyItem") = false ->
   copyItem (ItemSaverScript inner obj s) model itemData w
   = copyItem inner model itemData w)
  /\ (isFunction (property obj "transformItemData") = false ->
      transformItemData (ItemSaverScript inner obj s) model itemData w
      = transformItemData inner model itemData w).
Proof.
  split; intros H; simpl; unfold bind.
  - destruct (copyItem inner model itemData w) as [base w1].
    apply hook_absent. exact H.
  - destruct (transformItemData inner model itemData w) as [base w1].
    apply hook_absent. exact H.
Qed.

Lemma node_without_hook_is_transparent_witness :
  copyItem (E := Demo2.env)
    (ItemSaverScript Demo2.builtin Demo2.transformer (mkScriptable (QStr "p")))
    tt Demo.item Demo2.world0
  = ([("text/html", "<b/>"); ("text/plain", "hello")], Demo2.world0).
Proof.
  rewrite (proj1 (node_without_hook_is_transparent (E := Demo2.env)
                    Demo2.builtin Demo2.transformer (mkScriptable (QStr "p"))
                    tt Demo.item Demo2.world0) eq_refl).
  reflexivity.
Defined.

(** X8: [transformItemData] of a node runs the wrapped saver first and then
    the script's [transformItemData] function on the item the saver left.
    When the function returns undefined or null the item stays as the
    saver left it, any other value replaces it; the messages the script
    sent are logged and the exception state of the engine is as the
    wrapped saver left it. *)
Theorem transformItemData_applies_hook {E : Environment}
    (inner : ItemSaver E) (obj : QScriptValue) (s : Scriptable)
    (model : QAbstractItemModel) (itemData : QVariantMap)
    (w : World E) (code : nat) (r : JSValue) (h : Heap) (msgs : list Message) :
  let base := fst (transformItemData inner model itemData w) in
  let w1 := snd (transformItemData inner model itemData w) in
  property obj "transformItemData" = Valid (JSFunction code) ->
  run code obj [fromDataMap base] (heap (engine w1)) = (Return r, h, msgs) ->
  transformItemData (ItemSaverScript inner obj s) model itemData w
  = (if isUndefined (Valid r) || isNull (Valid r) then base else toDataMap (Valid r),
     mkWorld (mkEngine h (globalObject (engine w1)) (uncaught (engine w1)))
             (host w1)
             (hostlog w1 ++ events_of (receiver s) msgs)).
Proof.
  intros base w1 Hfn Hrun. subst base w1. simpl. unfold bind.
  destruct (transformItemData inner model itemData w) as [base w1]. cbn [fst snd] in *.
  rewrite (hook_return _ _ _ _ _ _ _ _ _ Hfn Hrun), emit_eq. reflexivity.
Qed.

Lemma transformItemData_applies_hook_witness :
  transformItemData (E := Demo2.env)
    (ItemSaverScript Demo2.builtin Demo2.transformer (mkScriptable (QStr "p")))
    tt Demo.item Demo2.world0
  = (Demo.item,
     mkWorld (E := Demo2.env) (mkEngine 1%nat [] None) tt
             [(QStr "scripts::p: careful", LogWarning)]).
Proof.
  exact (transformItemData_applies_hook (E := Demo2.env)
           Demo2.builtin Demo2.transformer (mkScriptable (QStr "p"))
           tt Demo.item Demo2.world0 8%nat JSNull 1%nat
           [("", 1%Z); ("careful", 2%Z)] eq_refl eq_refl).
Defined.



(** X12: a text without a newline is logged as it is, after the label of
    the loader; for any text the logged text is the label followed by the
    text in which each newline is replaced by the label. *)
Theorem log_single_line {E : Environment}
    (scriptFilePath : QString) (scriptFile : QFile) (w0 : World E)
    (text : QString) (level : LogLevel) (w : World E) :
  let l := fst (ItemLoaderScript_new scriptFilePath scriptFile w0) in
  hostlog (snd (log (id l) text level w))
  = (hostlog w
     ++ [(QStr (label_of (id l) ++ replace_char newline (label_of (id l)) (chars text)),
          level)])%list
  /\ (contains_char newline (chars text) = false ->
      hostlog (snd (log (id l) text level w))
      = (hostlog w ++ [(QStr (label_of (id l) ++ chars text), level)])%list).
Proof.
  intros l.
  assert (Hlabel : contains_char newline (label_of (id l)) = false).
  { apply label_of_no_newline.
    destruct (new_fields scriptFilePath scriptFile w0) as [Hid _].
    fold l in Hid. unfold id. rewrite Hid. simpl.
    apply replace_outside_class_no_newline. }
  assert (Hlog : hostlog (snd (log (id l) text level w))
                 = (hostlog w
                    ++ [(QStr (label_of (id l)
                               ++ replace_char newline (label_of (id l)) (chars text)),
                         level)])%list).
  { rewrite log_eq. cbn [snd hostlog]. unfold logged_text.
    rewrite replace_char_app, (replace_char_absent _ _ _ Hlabel). reflexivity. }
  split; [exact Hlog|].
  intros Htext. rewrite Hlog, (replace_char_absent _ _ _ Htext). reflexivity.
Qed.

Lemma log_single_line_witness :
  hostlog (snd (log (E := Demo.env) (id (fst (Demo.load "my plugin!.js" "plain")))
                    (QStr "ready") LogNote Demo.world0))
  = [(QStr "scripts::my_plugin_: ready", LogNote)].
Proof.
  apply (proj2 (log_single_line (E := Demo.env) (QStr "my plugin!.js")
                  (Readable "plain") Demo.world0 (QStr "ready") LogNote Demo.world0)).
  reflexivity.
Defined.

(* ------------------------------------------------------------------------- *)
(** * Properties of the image plugin *)

Section ImageLemmas.
Context {E : Environment} {G : Gui E}.

Lemma existsb_eqb_In (f : string) (formats : list string) :
  existsb (String.eqb f) formats = true <-> In f formats.
Proof.
  rewrite existsb_exists. split.
  - intros [x [Hin Heq]]. apply String.eqb_eq in Heq. now subst x.
  - intros Hin. exists f. split; [exact Hin | apply String.eqb_refl].
Qed.

Lemma existsb_eqb_not_In (f : string) (formats : list string) :
  existsb (String.eqb f) formats = false <-> ~ In f formats.
Proof.
  rewrite <- existsb_eqb_In. destruct (existsb _ _); split; intros H;
    try reflexivity; try discriminate; try (intros H'; discriminate H').
  now elim H.
Qed.

(** The loop returns the first candidate that is among the formats. *)
Lemma first_contained_some candidates formats f :
  ItemImage.first_contained candidates formats = QStr f ->
  In f formats
  /\ exists before after,
       candidates = (before ++ f :: after)%list
       /\ forall g, In g before -> ~ In g formats.
Proof.
  induction candidates as [|c rest IH]; simpl; intros H; [discriminate H|].
  destruct (existsb (String.eqb c) formats) eqn:Hc.
  - injection H as <-. split; [now apply existsb_eqb_In|].
    exists [], rest. split; [reflexivity | intros g []].
  - destruct (IH H) as [Hin (before & after & Heq & Hbefore)].
    split; [exact Hin|]. exists (c :: before), after. split.
    + simpl. now rewrite Heq.
    + intros g [<-|Hg]; [now apply existsb_eqb_not_In | now apply Hbefore].
Qed.

Lemma first_contained_null candidates formats :
  ItemImage.first_contained candidates formats = QNull
  <-> forall f, In f candidates -> ~ In f formats.
Proof.
  induction candidates as [|c rest IH]; simpl.
  - split; [intros _ f [] | reflexivity].
  - destruct (existsb (String.eqb c) formats) eqn:Hc.
    + split; [intros H; discriminate H|].
      intros H. apply existsb_eqb_In in Hc. elim (H c (or_introl eq_refl) Hc).
    + rewrite IH. apply existsb_eqb_not_In in Hc. split.
      * intros H f [<-|Hf]; [exact Hc | now apply H].
      * intros H f Hf. apply H. now right.
Qed.

Lemma first_contained_cases candidates formats :
  ItemImage.first_contained candidates formats = QNull
  \/ exists f, ItemImage.first_contained candidates formats = QStr f /\ In f candidates.
Proof.
  induction candidates as [|c rest IH]; simpl; [now left|].
  destruct (existsb (String.eqb c) formats).
  - right. exists c. split; [reflexivity | now left].
  - destruct IH as [H|[f [H Hin]]]; [now left|].
    right. exists f. split; [exact H | now right].
Qed.

Lemma imageFormats_not_empty f : In f ItemImage.imageFormats -> f <> EmptyString.
Proof.
  simpl. intros [<-|[<-|[<-|[<-|[<-|[]]]]]]; discriminate.
Qed.

Lemma find_keys (key : string) (m : QVariantMap) :
  In key (ItemImage.keys m) <-> exists v, ItemImage.find key m = Some v.
Proof.
  unfold ItemImage.keys. induction m as [|[k v] rest IH]; simpl.
  - split; [intros [] | intros [v H]; discriminate H].
  - destruct (String.eqb k key) eqn:Hk.
    + apply String.eqb_eq in Hk. split; [intros _; now exists v | intros _; now left].
    + apply String.eqb_neq in Hk. rewrite <- IH. split.
      * intros [H|H]; [contradiction | exact H].
      * intros H. now right.
Qed.

Lemma contains_keys (key : string) (m : QVariantMap) :
  ItemImage.contains key m = true <-> In key (ItemImage.keys m).
Proof.
  rewrite find_keys. unfold ItemImage.contains.
  destruct (ItemImage.find key m) as [v|].
  - split; [intros _; now exists v | reflexivity].
  - split; [intros H; discriminate H | intros [v H]; discriminate H].
Qed.

Lemma QString_isEmpty_QStr (f : string) :
  f <> EmptyString -> QString_isEmpty (QStr f) = false.
Proof. destruct f; [intros H; now elim H | reflexivity]. Qed.

(** [getImageData] in terms of [findImageFormat]. *)
Lemma getImageData_eq dataMap data mime :
  ItemImage.getImageData dataMap data mime
  = match ItemImage.findImageFormat (ItemImage.keys dataMap) with
    | QNull => (false, data, QNull)
    | QStr f => (true, toByteArray (ItemImage.value f dataMap), QStr f)
    end.
Proof.
  unfold ItemImage.getImageData, ItemImage.findImageFormat.
  destruct (first_contained_cases ItemImage.imageFormats (ItemImage.keys dataMap))
    as [H|[f [H Hin]]]; rewrite H; [reflexivity|].
  rewrite (QString_isEmpty_QStr f (imageFormats_not_empty f Hin)). reflexivity.
Qed.

End ImageLemmas.

(** X13: [findImageFormat] returns the first of png, bmp, jpeg, gif and
    svg (in this order) that is among the formats given: the result is one
    of the formats given, and no image format that comes before it in the
    order is among them.  The result is the null text exactly when none of
    the five is given. *)
Theorem findImageFormat_first_match (formats : list string) :
  (ItemImage.findImageFormat formats = QNull
   <-> forall f, In f ItemImage.imageFormats -> ~ In f formats)
  /\ (forall f, ItemImage.findImageFormat formats = QStr f ->
        In f formats
        /\ exists before after,
             ItemImage.imageFormats = (before ++ f :: after)%list
             /\ forall g, In g before -> ~ In g formats)
  /\ (In "image/png" formats -> ItemImage.findImageFormat formats = QStr "image/png").
Proof.
  split; [apply first_contained_null|].
  split; [intros f; apply first_contained_some|].
  intros Hpng. unfold ItemImage.findImageFormat, ItemImage.imageFormats.
  cbn [ItemImage.first_contained].
  now rewrite (proj2 (existsb_eqb_In "image/png" formats) Hpng).
Qed.

Lemma findImageFormat_first_match_witness :
  ItemImage.findImageFormat [ "image/svg+xml"; "text/plain"; "image/png" ]
  = QStr "image/png".
Proof.
  apply (proj2 (proj2 (findImageFormat_first_match
                         [ "image/svg+xml"; "text/plain"; "image/png" ]))).
  simpl. right. right. left. reflexivity.
Defined.

(** X14: the result of [findImageFormat] depends only on which formats are
    given, not on their order or on repetitions. *)
Theorem findImageFormat_order_irrelevant (formats formats' : list string) :
  (forall f, In f formats <-> In f formats') ->
  ItemImage.findImageFormat formats = ItemImage.findImageFormat formats'.
Proof.
  intros Hsame. unfold ItemImage.findImageFormat.
  induction ItemImage.imageFormats as [|c rest IH]; simpl; [reflexivity|].
  rewrite IH.
  destruct (existsb (String.eqb c) formats) eqn:H1;
    destruct (existsb (String.eqb c) formats') eqn:H2; try reflexivity.
  - apply existsb_eqb_In in H1. apply Hsame in H1.
    apply existsb_eqb_In in H1. congruence.
  - apply existsb_eqb_In in H2. apply Hsame in H2.
    apply existsb_eqb_In in H2. congruence.
Qed.

Lemma findImageFormat_order_irrelevant_witness :
  ItemImage.findImageFormat [ "image/gif"; "image/bmp" ]
  = ItemImage.findImageFormat [ "image/bmp"; "image/gif"; "image/bmp" ].
Proof.
  apply findImageFormat_order_irrelevant.
  intros f. simpl. tauto.
Defined.

(** X15: [getImageData] fails exactly when the item has none of the five
    image formats; it then leaves [*data] as it was and sets [*mime] to the
    null text.  When it succeeds, [*mime] is the format [findImageFormat]
    picks among the keys of the item and [*data] is the value the item
    holds for it: the default value of a missing key is never used. *)
Theorem getImageData_result {E : Environment} {G : Gui E}
    (dataMap : QVariantMap) (data : QByteArray) (mime : QString) :
  let r := ItemImage.getImageData dataMap data mime in
  (fst (fst r) = false
   <-> forall f, In f ItemImage.imageFormats -> ItemImage.contains f dataMap = false)
  /\ (fst (fst r) = false -> snd (fst r) = data /\ snd r = QNull)
  /\ (fst (fst r) = true ->
      exists f v,
        snd r = QStr f
        /\ ItemImage.findImageFormat (ItemImage.keys dataMap) = QStr f
        /\ ItemImage.find f dataMap = Some v
        /\ snd (fst r) = toByteArray v).
Proof.
  intros r. subst r. rewrite getImageData_eq.
  destruct (ItemImage.findImageFormat (ItemImage.keys dataMap)) as [|f] eqn:Hfind;
    cbn [fst snd].
  - split; [|split].
    + split; [|reflexivity]. intros _ f Hf.
      pose proof (proj1 (first_contained_null _ _) Hfind f Hf) as Hnot.
      destruct (ItemImage.contains f dataMap) eqn:Hc; [|reflexivity].
      apply contains_keys in Hc. contradiction.
    + intros _. split; reflexivity.
    + intros H. discriminate H.
  - destruct (first_contained_some _ _ _ Hfind) as [Hin (before & after & Heq & _)].
    destruct (proj1 (find_keys f dataMap) Hin) as [v Hv].
    split; [|split].
    + split; [intros H; discriminate H|]. intros H.
      assert (Hf : In f ItemImage.imageFormats)
        by (rewrite Heq; apply in_or_app; right; now left).
      specialize (H f Hf). apply contains_keys in Hin. congruence.
    + intros H. discriminate H.
    + intros _. exists f, v. unfold ItemImage.value. rewrite Hv. repeat split.
Qed.

Lemma getImageData_result_witness :
  exists f v,
    snd (ItemImage.getImageData (G := DemoGui.gui) DemoGui.png_and_svg "old" QNull)
    = QStr f
    /\ ItemImage.findImageFormat (ItemImage.keys (E := Demo.env) DemoGui.png_and_svg)
       = QStr f
    /\ ItemImage.find (E := Demo.env) f DemoGui.png_and_svg = Some v
    /\ snd (fst (ItemImage.getImageData (G := DemoGui.gui) DemoGui.png_and_svg "old" QNull))
       = toByteArray (Gui := DemoGui.gui) v.
Proof.
  apply (proj2 (proj2 (getImageData_result (G := DemoGui.gui)
                         DemoGui.png_and_svg "old" QNull))).
  reflexivity.
Defined.

Section AnimationLemmas.
Context {E : Environment} {G : Gui E}.

Lemma animated_in_result formats dataMap data format :
  let r := ItemImage.animated_in formats dataMap data format in
  (fst (fst r) = false ->
   snd (fst r) = data /\ snd r = format
   /\ forall f, In f formats -> ItemImage.contains ("image/" ++ f) dataMap = false)
  /\ (fst (fst r) = true ->
      exists before after v,
        formats = (before ++ snd r :: after)%list
        /\ (forall g, In g before -> ItemImage.contains ("image/" ++ g) dataMap = false)
        /\ ItemImage.find ("image/" ++ snd r) dataMap = Some v
        /\ snd (fst r) = toByteArray v).
Proof.
  induction formats as [|c rest IH]; cbn [ItemImage.animated_in]; cbv zeta.
  - cbn [fst snd]. split; [intros _; repeat split; intros f [] | intros H; discriminate H].
  - destruct (ItemImage.contains ("image/" ++ c) dataMap) eqn:Hc; cbn [fst snd].
    + split; [intros H; discriminate H|]. intros _.
      unfold ItemImage.contains in Hc. unfold ItemImage.value.
      destruct (ItemImage.find ("image/" ++ c) dataMap) as [v|] eqn:Hv; [|discriminate Hc].
      exists [], rest, v. repeat split. intros g [].
    + cbv zeta in IH. destruct IH as [IHf IHt]. split.
      * intros H. destruct (IHf H) as (Hd & Hfmt & Hall). repeat split; try assumption.
        intros f [<-|Hf]; [exact Hc | now apply Hall].
      * intros H. destruct (IHt H) as (before & after & v & Heq & Hbefore & Hv & Hd).
        exists (c :: before), after, v. repeat split; try assumption.
        -- simpl. now rewrite <- Heq.
        -- intros g [<-|Hg]; [exact Hc | now apply Hbefore].
Qed.

End AnimationLemmas.

(** X16: [getAnimatedImageData] looks for the key ["image/" + format] for
    each format [QMovie] supports, in the order [QMovie] lists them, and
    stops at the first the item has: [*format] is that format and [*data]
    the value the item holds for the key.  When the item has none of these
    keys it fails and leaves [*data] and [*format] as they were. *)
Theorem getAnimatedImageData_result {E : Environment} {G : Gui E}
    (dataMap : QVariantMap) (data format : QByteArray) :
  let r := ItemImage.getAnimatedImageData dataMap data format in
  (fst (fst r) = false ->
   snd (fst r) = data /\ snd r = format
   /\ forall f, In f supportedFormats ->
                ItemImage.contains ("image/" ++ f) dataMap = false)
  /\ (fst (fst r) = true ->
      exists before after v,
        supportedFormats = (before ++ snd r :: after)%list
        /\ (forall g, In g before -> ItemImage.contains ("image/" ++ g) dataMap = false)
        /\ ItemImage.find ("image/" ++ snd r) dataMap = Some v
        /\ snd (fst r) = toByteArray v).
Proof. apply animated_in_result. Qed.

Lemma getAnimatedImageData_result_witness :
  snd (fst (ItemImage.getAnimatedImageData (G := DemoGui.gui) DemoGui.text_only
              "old" "none")) = "old"
  /\ (exists before after v,
         supportedFormats (Gui := DemoGui.gui)
         = (before ++ snd (ItemImage.getAnimatedImageData (G := DemoGui.gui)
                             DemoGui.animated "old" "none") :: after)%list
         /\ (forall g, In g before ->
               ItemImage.contains (E := Demo.env) ("image/" ++ g) DemoGui.animated = false)
         /\ ItemImage.find (E := Demo.env)
              ("image/" ++ snd (ItemImage.getAnimatedImageData (G := DemoGui.gui)
                                  DemoGui.animated "old" "none"))
              DemoGui.animated = Some v
         /\ snd (fst (ItemImage.getAnimatedImageData (G := DemoGui.gui)
                        DemoGui.animated "old" "none"))
            = toByteArray (Gui := DemoGui.gui) v).
Proof.
  split.
  - apply (proj1 (getAnimatedImageData_result (G := DemoGui.gui)
                    DemoGui.text_only "old" "none")).
    reflexivity.
  - apply (proj2 (getAnimatedImageData_result (G := DemoGui.gui)
                    DemoGui.animated "old" "none")).
    reflexivity.
Defined.

(** X17: [getPixmapFromData] succeeds exactly when the item has one of the
    five image formats, whether or not the data can be decoded: the pixmap
    is then what [loadFromData] left, for the data and format that
    [getImageData] picked.  When it fails the pixmap is untouched. *)
Theorem getPixmapFromData_ignores_decoding {E : Environment} {G : Gui E}
    (dataMap : QVariantMap) (pix : QPixmap) :
  let r := ItemImage.getPixmapFromData dataMap pix in
  (fst r = true
   <-> exists f, In f ItemImage.imageFormats /\ ItemImage.contains f dataMap = true)
  /\ (fst r = false -> snd r = pix)
  /\ (fst r = true ->
      exists f v,
        ItemImage.findImageFormat (ItemImage.keys dataMap) = QStr f
        /\ ItemImage.find f dataMap = Some v
        /\ snd r = snd (loadFromData pix (toByteArray v) f)).
Proof.
  intros r. subst r. unfold ItemImage.getPixmapFromData. rewrite getImageData_eq.
  destruct (ItemImage.findImageFormat (ItemImage.keys dataMap)) as [|f] eqn:Hfind;
    cbn [fst snd negb chars].
  - split; [|split].
    + split; [intros H; discriminate H|]. intros [f [Hf Hc]].
      apply contains_keys in Hc.
      elim (proj1 (first_contained_null _ _) Hfind f Hf Hc).
    + reflexivity.
    + intros H. discriminate H.
  - destruct (first_contained_some _ _ _ Hfind) as [Hin (before & after & Heq & _)].
    destruct (proj1 (find_keys f dataMap) Hin) as [v Hv].
    split; [|split].
    + split; [|reflexivity]. intros _. exists f. split.
      * rewrite Heq. apply in_or_app. right. now left.
      * now apply contains_keys.
    + intros H. discriminate H.
    + intros _. exists f, v. unfold ItemImage.value. rewrite Hv. repeat split.
Qed.

Lemma getPixmapFromData_ignores_decoding_witness :
  fst (ItemImage.getPixmapFromData (G := DemoGui.gui)
         [("image/png", "not a picture")] (1, 1)%Z) = true
  /\ fst (loadFromData (Gui := DemoGui.gui) (1, 1)%Z "not a picture" "image/png") = false.
Proof.
  split; [|reflexivity].
  apply (proj1 (getPixmapFromData_ignores_decoding (G := DemoGui.gui)
                  [("image/png", "not a picture")] (1, 1)%Z)).
  exists "image/png". split; [simpl; left; reflexivity | reflexivity].
Defined.

Lemma svg_in_imageFormats (f : string) :
  In f ItemImage.imageFormats ->
  has_substring "svg" f = String.eqb f "image/svg+xml".
Proof.
  simpl. intros [<-|[<-|[<-|[<-|[<-|[]]]]]]; reflexivity.
Qed.

(** X18: [createExternalEditor] returns no editor for an item without an
    image format.  Otherwise the editor is given the data and format that
    [getImageData] picks, with the SVG editor command exactly when that
    format is [image/svg+xml] and the image editor command for every other
    format; when the command chosen is empty there is no editor.  An
    item that has PNG data is therefore edited as PNG with the image
    editor, even if it has SVG data too. *)
Theorem createExternalEditor_choice {E : Environment} {G : Gui E}
    (this : ItemImage.ItemImage) (dataMap : QVariantMap) :
  (ItemImage.findImageFormat (ItemImage.keys dataMap) = QNull ->
   ItemImage.createExternalEditor this dataMap = None)
  /\ (forall f v,
         ItemImage.findImageFormat (ItemImage.keys dataMap) = QStr f ->
         ItemImage.find f dataMap = Some v ->
         let cmd := if String.eqb f "image/svg+xml"
                    then ItemImage.m_svgEditor this
                    else ItemImage.m_editor this in
         ItemImage.createExternalEditor this dataMap
         = if QString_isEmpty cmd then None
           else Some (ItemImage.mkItemEditor (toByteArray v) (QStr f) cmd))
  /\ (forall v,
         ItemImage.find "image/png" dataMap = Some v ->
         ItemImage.createExternalEditor this dataMap
         = if QString_isEmpty (ItemImage.m_editor this) then None
           else Some (ItemImage.mkItemEditor (toByteArray v) (QStr "image/png")
                                             (ItemImage.m_editor this))).
Proof.
  assert (Hsome : forall f v,
             ItemImage.findImageFormat (ItemImage.keys dataMap) = QStr f ->
             ItemImage.find f dataMap = Some v ->
             ItemImage.createExternalEditor this dataMap
             = if QString_isEmpty (if String.eqb f "image/svg+xml"
                                   then ItemImage.m_svgEditor this
                                   else ItemImage.m_editor this)
               then None
               else Some (ItemImage.mkItemEditor (toByteArray v) (QStr f)
                            (if String.eqb f "image/svg+xml"
                             then ItemImage.m_svgEditor this
                             else ItemImage.m_editor this))).
  { intros f v Hfind Hv.
    unfold ItemImage.createExternalEditor. rewrite getImageData_eq, Hfind.
    cbn [negb]. unfold QString_contains. cbn [chars].
    destruct (first_contained_some _ _ _ Hfind) as [_ (before & after & Heq & _)].
    rewrite svg_in_imageFormats
      by (rewrite Heq; apply in_or_app; right; now left).
    unfold ItemImage.value. rewrite Hv. reflexivity. }
  split; [|split].
  - intros Hnull. unfold ItemImage.createExternalEditor.
    rewrite getImageData_eq, Hnull. reflexivity.
  - exact Hsome.
  - intros v Hv.
    assert (Hpng : ItemImage.findImageFormat (ItemImage.keys dataMap) = QStr "image/png").
    { unfold ItemImage.findImageFormat, ItemImage.imageFormats.
      cbn [ItemImage.first_contained].
      rewrite (proj2 (existsb_eqb_In "image/png" (ItemImage.keys dataMap)));
        [reflexivity|]. apply find_keys. now exists v. }
    rewrite (Hsome "image/png" v Hpng Hv). reflexivity.
Qed.

Lemma createExternalEditor_choice_witness :
  ItemImage.createExternalEditor (G := DemoGui.gui) DemoGui.widget DemoGui.png_and_svg
  = Some (ItemImage.mkItemEditor "ok" (QStr "image/png")
            (QStr "gimp %1"))
  /\ ItemImage.createExternalEditor (G := DemoGui.gui) DemoGui.widget
       [("image/svg+xml", "<svg/>")]
     = Some (ItemImage.mkItemEditor "<svg/>" (QStr "image/svg+xml")
               (QStr "inkscape %1"))
  /\ ItemImage.createExternalEditor (G := DemoGui.gui) DemoGui.widget DemoGui.text_only
     = None.
Proof.
  split; [|split].
  - exact (proj2 (proj2 (createExternalEditor_choice (G := DemoGui.gui)
                           DemoGui.widget DemoGui.png_and_svg)) "ok" eq_refl).
  - exact (proj1 (proj2 (createExternalEditor_choice (G := DemoGui.gui)
                           DemoGui.widget [("image/svg+xml", "<svg/>")]))
             "image/svg+xml" "<svg/>" eq_refl eq_refl).
  - exact (proj1 (createExternalEditor_choice (G := DemoGui.gui)
                    DemoGui.widget DemoGui.text_only) eq_refl).
Defined.

(** X19: [ItemImageLoader::create] makes no widget exactly when the item is
    marked hidden or has none of the five image formats; data that cannot
    be decoded still gets a widget. *)
Theorem create_null_iff {E : Environment} {G : Gui E}
    (m_settings data : QVariantMap) (preview : bool) :
  ItemImage.create m_settings data preview = None
  <-> toBool (ItemImage.value mimeHidden data) = true
      \/ ItemImage.findImageFormat (ItemImage.keys data) = QNull.
Proof.
  unfold ItemImage.create, ItemImage.getPixmapFromData.
  rewrite getImageData_eq.
  destruct (toBool (ItemImage.value mimeHidden data)).
  - split; [intros _; now left | reflexivity].
  - destruct (ItemImage.findImageFormat (ItemImage.keys data)) as [|f]; cbn [negb].
    + split; [intros _; now right | reflexivity].
    + destruct (ItemImage.getAnimatedImageData data EmptyString EmptyString)
        as [[ok animationData] animationFormat].
      split; [intros H; discriminate H | intros [H|H]; discriminate H].
Qed.

Lemma create_null_iff_witness :
  ItemImage.create (G := DemoGui.gui) DemoGui.settings
    (("application/x-copyq-hidden", "true") :: DemoGui.png_and_svg)%list false = None
  /\ ItemImage.create (G := DemoGui.gui) DemoGui.settings DemoGui.text_only false = None
  /\ ItemImage.create (G := DemoGui.gui) DemoGui.settings
       [("image/png", "not a picture")] false <> None.
Proof.
  split; [|split].
  - apply (proj2 (create_null_iff (G := DemoGui.gui) DemoGui.settings
                    (("application/x-copyq-hidden", "true") :: DemoGui.png_and_svg)%list
                    false)).
    left. reflexivity.
  - apply (proj2 (create_null_iff (G := DemoGui.gui) DemoGui.settings
                    DemoGui.text_only false)).
    right. reflexivity.
  - intros H.
    apply (proj1 (create_null_iff (G := DemoGui.gui) DemoGui.settings
                    [("image/png", "not a picture")] false)) in H.
    destruct H as [H|H]; discriminate H.
Defined.

(** X20: the pixmap of the widget [create] makes is the decoded pixmap
    either as it is or scaled down: [scaledToWidth] is only called with a
    width that is positive and smaller than the pixmap's, [scaledToHeight]
    only with such a height.  A preview is never scaled, and neither is a
    pixmap that exceeds neither the width nor the height of the settings.
    The editor commands of the widget are those of the settings. *)
Theorem create_scales_down_only {E : Environment} {G : Gui E}
    (m_settings data : QVariantMap) (preview : bool) (image : ItemImage.ItemImage) :
  ItemImage.create m_settings data preview = Some image ->
  let pix := setDevicePixelRatio (snd (ItemImage.getPixmapFromData data nullPixmap)) in
  let w := ItemImage.setting_int m_settings "max_image_width" 320 in
  let h := ItemImage.setting_int m_settings "max_image_height" 240 in
  (ItemImage.m_pixmap image = pix
   \/ (preview = false /\ (0 < w < width pix)%Z
       /\ ItemImage.m_pixmap image = scaledToWidth pix w)
   \/ (preview = false /\ (0 < h < height pix)%Z
       /\ ItemImage.m_pixmap image = scaledToHeight pix h))
  /\ (preview = true -> ItemImage.m_pixmap image = pix)
  /\ ((width pix <= w)%Z -> (height pix <= h)%Z -> ItemImage.m_pixmap image = pix)
  /\ ItemImage.m_editor image = ItemImage.setting_string m_settings "image_editor"
  /\ ItemImage.m_svgEditor image = ItemImage.setting_string m_settings "svg_editor".
Proof.
  unfold ItemImage.create.
  destruct (toBool (ItemImage.value mimeHidden data)); [intros H; discriminate H|].
  destruct (ItemImage.getPixmapFromData data nullPixmap) as [ok loaded].
  destruct ok; cbn [negb snd]; [|intros H; discriminate H].
  destruct (ItemImage.getAnimatedImageData data EmptyString EmptyString)
    as [[ok animationData] animationFormat].
  intros H. injection H as <-. cbv zeta. cbn [ItemImage.m_pixmap ItemImage.m_editor
                                              ItemImage.m_svgEditor].
  set (pix := setDevicePixelRatio loaded).
  set (w := ItemImage.setting_int m_settings "max_image_width" 320).
  set (h := ItemImage.setting_int m_settings "max_image_height" 240).
  destruct preview.
  - cbn. repeat split; try reflexivity. now left.
  - destruct (0 <? w)%Z eqn:Hw0; destruct (w <? width pix)%Z eqn:Hw;
      destruct (0 <? h)%Z eqn:Hh0; destruct (h <? height pix)%Z eqn:Hh;
      destruct ((h <=? 0)%Z || ratio_gt (width pix) w (height pix) h) eqn:Hr;
      cbn [andb];
      try apply Z.ltb_lt in Hw0; try apply Z.ltb_lt in Hw;
      try apply Z.ltb_lt in Hh0; try apply Z.ltb_lt in Hh;
      try apply Z.ltb_ge in Hw0; try apply Z.ltb_ge in Hw;
      try apply Z.ltb_ge in Hh0; try apply Z.ltb_ge in Hh;
      (split; [|split; [|split; [|split]]]);
      try reflexivity; try (intros H; discriminate H);
      try (intros; lia);
      try (now left);
      try (right; left; repeat split; (reflexivity || lia));
      try (right; right; repeat split; (reflexivity || lia)).
Qed.

Lemma create_scales_down_only_witness :
  exists image,
    ItemImage.create (G := DemoGui.gui) [] [("image/png", "small")] false = Some image
    /\ ItemImage.m_pixmap image = (32, 32)%Z.
Proof.
  eexists. split; [reflexivity|].
  apply (proj1 (proj2 (proj2 (create_scales_down_only (G := DemoGui.gui)
                                [] [("image/png", "small")] false _ eq_refl))));
    vm_compute; discriminate.
Defined.
